(** * The request pipeline of the API gateway (src/api.js)

    A shallow embedding of the per-endpoint route registration of
    [APIGateway]'s constructor: the authentication middleware, the path
    resolution, the required-body check, the forwarding call with its timer
    and the relay of the upstream response.  The libraries the file calls
    (koa, @koa/router, path-to-regexp, node-fetch, the authenticator and the
    logger) are collaborators, gathered in the record [Env]. *)

From Stdlib Require Import ZArith String Ascii List Lia DecimalString.
From stdpp Require Import base option list strings gmap.

Set Warnings "-register-all,-clear-no-such-hyp".

Local Open Scope string_scope.
Local Open Scope Z_scope.

(** ** JavaScript values *)

(** The JSON-shaped values the handler inspects.  Numbers are the integers
    (what [typeof] and truthiness need); an object is its own enumerable
    properties, in enumeration order. *)
Inductive JsValue : Type :=
| JUndefined
| JNull
| JBool (b : bool)
| JNum (n : Z)
| JStr (s : string)
| JArr (xs : list JsValue)
| JObj (props : list (string * JsValue)).

(** [typeof v] *)
Definition typeof (v : JsValue) : string :=
  match v with
  | JUndefined => "undefined"
  | JNull => "object"
  | JBool _ => "boolean"
  | JNum _ => "number"
  | JStr _ => "string"
  | JArr _ => "object"
  | JObj _ => "object"
  end.

(** ToBoolean: what [if (v)] and [v || w] test. *)
Definition truthy (v : JsValue) : bool :=
  match v with
  | JUndefined | JNull => false
  | JBool b => b
  | JNum n => negb (n =? 0)
  | JStr s => negb (String.eqb s "")
  | JArr _ | JObj _ => true
  end.

Definition decimal (n : Z) : string := NilEmpty.string_of_int (Z.to_int n).

Definition join_comma (parts : list string) : string :=
  match parts with
  | [] => ""
  | p :: ps => fold_left (fun acc q => acc ++ "," ++ q) ps p
  end.

(** ToString, as [String.prototype.replace] applies it to its second
    argument. *)
Fixpoint ToString (v : JsValue) : string :=
  match v with
  | JUndefined => "undefined"
  | JNull => "null"
  | JBool true => "true"
  | JBool false => "false"
  | JNum n => decimal n
  | JStr s => s
  | JArr xs =>
      join_comma
        (List.map (fun x => match x with
                            | JUndefined | JNull => ""
                            | _ => ToString x
                            end) xs)
  | JObj _ => "[object Object]"
  end.

Definition chars (s : string) : list JsValue :=
  List.map (fun c => JStr (String c "")) (list_ascii_of_string s).

Definition indexed (xs : list JsValue) : list (string * JsValue) :=
  combine (List.map (fun i => decimal (Z.of_nat i)) (seq 0 (List.length xs))) xs.

(** The own enumerable properties of a value; [None] for [null] and
    [undefined], on which [Object.keys] and property access throw. *)
Definition own_entries (v : JsValue) : option (list (string * JsValue)) :=
  match v with
  | JUndefined | JNull => None
  | JBool _ | JNum _ => Some []
  | JStr s => Some (indexed (chars s))
  | JArr xs => Some (indexed xs)
  | JObj props => Some props
  end.

(** [Object.keys(v)] *)
Definition Object_keys (v : JsValue) : option (list string) :=
  List.map fst <$> own_entries v.

Fixpoint assoc (k : string) (ps : list (string * JsValue)) : option JsValue :=
  match ps with
  | [] => None
  | (k', v) :: ps' => if String.eqb k k' then Some v else assoc k ps'
  end.

(** [v[k]] for a key [k] taken from [Object.keys]. *)
Definition get_own (v : JsValue) (k : string) : JsValue :=
  match own_entries v with
  | Some ps => default JUndefined (assoc k ps)
  | None => JUndefined
  end.

(** [keys.indexOf(k)]: [None] is -1. *)
Fixpoint indexOf (k : string) (keys : list string) : option nat :=
  match keys with
  | [] => None
  | k' :: rest => if String.eqb k' k then Some 0%nat else S <$> indexOf k rest
  end.

(** [s === v] for a string [s]. *)
Definition strict_eq_string (s : string) (v : JsValue) : bool :=
  match v with
  | JStr t => String.eqb s t
  | _ => false
  end.

(** ** Strings *)

Definition lower_char (c : ascii) : ascii :=
  let n := nat_of_ascii c in
  if ((65 <=? n) && (n <=? 90))%nat then ascii_of_nat (n + 32) else c.

(** [s.toLowerCase()] *)
Fixpoint toLowerCase (s : string) : string :=
  match s with
  | EmptyString => EmptyString
  | String c r => String (lower_char c) (toLowerCase r)
  end.

(** [Some rest] when [s = p ++ rest]. *)
Fixpoint strip_prefix (p s : string) : option string :=
  match p, s with
  | EmptyString, _ => Some s
  | String a p', String b s' => if Ascii.eqb a b then strip_prefix p' s' else None
  | String _ _, EmptyString => None
  end.

(** [s.includes(sub)] *)
Fixpoint includes (sub s : string) : bool :=
  match strip_prefix sub s with
  | Some _ => true
  | None => match s with
            | EmptyString => false
            | String _ r => includes sub r
            end
  end.

(** The class [\w] of a regular expression without the [u] and [i] flags. *)
Definition is_word_char (c : ascii) : bool :=
  let n := nat_of_ascii c in
  (((48 <=? n) && (n <=? 57)) || ((65 <=? n) && (n <=? 90))
   || ((97 <=? n) && (n <=? 122)) || (n =? 95))%nat.

(** The longest prefix of word characters: what a greedy [\w+] consumes. *)
Fixpoint take_word (s : string) : string :=
  match s with
  | EmptyString => EmptyString
  | String c r => if is_word_char c then String c (take_word r) else EmptyString
  end.

Definition state_marker : string := "/users/:_state_".

(** [/\/users\/:_state_(\w+)/g.exec(s)] on a fresh regular expression
    (lastIndex 0): the leftmost match, as the pair of the matched text
    (index 0) and the capture group (index 1); [None] is [null]. *)
Fixpoint reForAttr_exec (s : string) : option (string * string) :=
  let here :=
    match strip_prefix state_marker s with
    | Some rest =>
        match take_word rest with
        | EmptyString => None
        | w => Some (state_marker ++ w, w)
        end
    | None => None
    end in
  match here with
  | Some m => Some m
  | None => match s with
            | EmptyString => None
            | String _ r => reForAttr_exec r
            end
  end.

(** GetSubstitution for a string pattern that matched the empty string at
    position 0 of [subject]: [$$] is a dollar sign, [$&] the matched text
    and [$`] the text before it (both empty), [$'] the text after it (the
    whole subject); there are no captures, so every other [$] is literal. *)
Fixpoint expand_replacement (subject repl : string) : string :=
  match repl with
  | EmptyString => EmptyString
  | String c r =>
      if Ascii.eqb c "$" then
        match r with
        | String d r' =>
            if Ascii.eqb d "$" then String "$" (expand_replacement subject r')
            else if Ascii.eqb d "&" then expand_replacement subject r'
            else if Ascii.eqb d "`" then expand_replacement subject r'
            else if Ascii.eqb d "'" then subject ++ expand_replacement subject r'
            else String c (expand_replacement subject r)
        | EmptyString => String c EmptyString
        end
      else String c (expand_replacement subject r)
  end.

(** [subject.replace('', v)]: the empty pattern matches at position 0, so
    the (expanded) replacement is put in front of the subject. *)
Definition replace_empty (subject : string) (v : JsValue) : string :=
  expand_replacement subject (ToString v) ++ subject.

(** ** The data model *)

(** [endpoint.auth.jwt] *)
Record Jwt : Type := {
  stripFromToken : option string;
  signTokenData : bool
}.

(** [endpoint.auth] *)
Record Auth : Type := {
  jwt : option Jwt
}.

(** One entry of the configuration's [endpoints] list.  [body_required] is
    [endpoint.body?.required]: [None] when the body section or its list is
    absent. *)
Record Endpoint : Type := {
  name : string;
  method : string;
  path : string;
  remoteLocation : string;
  remotePath : string;
  timeout : option Z;
  auth : option Auth;
  body_required : option (list JsValue);
  forwardError : bool
}.

(** The part of the koa context the pipeline reads and writes.  [ctx_status]
    and [ctx_body] hold what the code assigns to [ctx.status] and
    [ctx.body]; [ctx_body = None] is a body never assigned.  What koa makes
    of the two when it sends the response is outside the embedding. *)
Record Ctx : Type := {
  ctx_request_url : string;
  ctx_request_body : JsValue;
  ctx_state : gmap string JsValue;
  ctx_status : Z;
  ctx_body : option JsValue
}.

(** What the code throws and catches. *)
Inductive JsError : Type :=
| TypeError (what : string)
| ReferenceError (identifier : string)
| FetchError (what : string)
| AbortError
| AssertionError (what : string).

(** The options of one [fetch] call.  [fc_body] is the value handed to
    [JSON.stringify], [fc_signal] the abort controller whose signal the call
    listens to. *)
Record FetchCall : Type := {
  fc_url : string;
  fc_method : string;
  fc_body : option JsValue;
  fc_headers : list (string * string);
  fc_signal : option nat
}.

(** A node-fetch response: [r_json] is what [.json()] resolves to ([None]
    when it rejects), [r_text] what [.text()] resolves to, [r_body] the
    [body] property. *)
Record Response : Type := {
  r_status : Z;
  r_statusText : string;
  r_json : option JsValue;
  r_text : string;
  r_body : JsValue
}.

(** [response.ok] *)
Definition ok (r : Response) : bool := (200 <=? r_status r) && (r_status r <? 300).

Inductive FetchResult : Type :=
| Resolves (r : Response)
| Rejects (e : JsError).

(** What the authenticator throws: an error carrying [status] and
    [message]. *)
Record AuthError : Type := {
  ae_status : Z;
  ae_message : string
}.

Inductive AuthOutcome : Type :=
| AuthFails (authError : AuthError)
| AuthPasses (decoded : JsValue).

(** An armed timer: the delay left before it fires and the controller its
    callback aborts. *)
Record Timer : Type := {
  t_delay : Z;
  t_controller : nat
}.

(** The process around one request: the upstream calls issued, the errors
    handed to the logger, the armed timers and the controllers created and
    aborted so far. *)
Record World : Type := {
  fetched : list FetchCall;
  published : list JsError;
  timers : gmap nat Timer;
  next_timer : nat;
  next_controller : nat;
  aborted : gset nat
}.

(** The collaborators.
    - [pathToRegexp t] is [None] when the template does not compile (the
      call throws); otherwise it is the [exec] of the compiled expression,
      giving the matched text (index 0 of the match).
    - [router_verb m] tells whether [router[m]] is a registration method.
    - [enforceAuth] receives the context and may change it.
    - [upstream] gives, for a call, the time it takes to settle and how.
    - [global_signJwtToken] is the binding of the identifier
      [signJwtToken], which api.js neither declares nor imports: it is
      looked up in the global object when the call is evaluated.
    - [publish_throws] is the error [log.publish] throws, if it does. *)
Record Env : Type := {
  pathToRegexp : string -> option (string -> option string);
  router_verb : string -> bool;
  auth_config : JsValue;
  enforceAuth : Ctx -> Endpoint -> JsValue -> AuthOutcome * Ctx;
  upstream : FetchCall -> Z * FetchResult;
  global_signJwtToken : option (JsValue -> JsValue);
  publish_throws : JsError -> option JsError
}.

(** ** Completions and the pipeline monad *)

(** How a statement completes: normally, by [return], or by a throw. *)
Inductive Completion (A : Type) : Type :=
| Normal (a : A)
| Return
| Throw (e : JsError).
Arguments Normal {A} a.
Arguments Return {A}.
Arguments Throw {A} e.

Record St : Type := {
  st_ctx : Ctx;
  st_world : World
}.

Definition M (A : Type) : Type := St -> Completion A * St.

Definition ret {A} (a : A) : M A := fun s => (Normal a, s).

Definition bind {A B} (m : M A) (k : A -> M B) : M B :=
  fun s =>
    match m s with
    | (Normal a, s') => k a s'
    | (Return, s') => (Return, s')
    | (Throw e, s') => (Throw e, s')
    end.

Declare Scope js_scope.
Delimit Scope js_scope with js.
Notation "x <- m ;; k" := (bind m (fun x => k))
  (at level 100, m at next level, right associativity, only parsing) : js_scope.
Notation "m ;; k" := (bind m (fun _ => k))
  (at level 100, right associativity, only parsing) : js_scope.
Local Open Scope js_scope.

Definition throw {A} (e : JsError) : M A := fun s => (Throw e, s).

(** [return;] *)
Definition return_ {A} : M A := fun s => (Return, s).

(** [try { body } catch (e) { handler e } finally { finalizer }]: the
    handler runs on a throw only; the finalizer runs on every completion of
    what precedes it, and its own abrupt completion wins. *)
Definition try_catch_finally {A} (body : M A) (handler : JsError -> M A)
    (finalizer : M unit) : M A :=
  fun s =>
    let '(c1, s1) := body s in
    let '(c2, s2) := match c1 with
                     | Throw e => handler e s1
                     | _ => (c1, s1)
                     end in
    match finalizer s2 with
    | (Normal _, s3) => (c2, s3)
    | (Return, s3) => (Return, s3)
    | (Throw e, s3) => (Throw e, s3)
    end.

(** The body of a function: a [return] ends the function normally. *)
Definition as_function (m : M unit) : M unit :=
  fun s =>
    match m s with
    | (Return, s') => (Normal tt, s')
    | r => r
    end.

Definition get_ctx : M Ctx := fun s => (Normal (st_ctx s), s).

Definition get_world : M World := fun s => (Normal (st_world s), s).

Definition modify_ctx (f : Ctx -> Ctx) : M unit :=
  fun s => (Normal tt, {| st_ctx := f (st_ctx s); st_world := st_world s |}).

Definition modify_world (f : World -> World) : M unit :=
  fun s => (Normal tt, {| st_ctx := st_ctx s; st_world := f (st_world s) |}).

(** [ctx.status = code], for a code koa accepts: a constant of api.js or the
    status of an HTTP response. *)
Definition set_status (code : Z) : M unit :=
  modify_ctx (fun c =>
    {| ctx_request_url := ctx_request_url c; ctx_request_body := ctx_request_body c;
       ctx_state := ctx_state c; ctx_status := code; ctx_body := ctx_body c |}).

(** koa's setter of [ctx.status] asserts an integer from 100 to 999. *)
Definition koa_accepts (code : Z) : bool := (100 <=? code) && (code <=? 999).

(** [ctx.status = code], for a code of any origin: the assertion of koa's
    setter throws on a code it does not accept, and nothing is assigned. *)
Definition assign_status (code : Z) : M unit :=
  if koa_accepts code then set_status code
  else throw (AssertionError "invalid status code").

(** [ctx.body = v] *)
Definition set_body (v : JsValue) : M unit :=
  modify_ctx (fun c =>
    {| ctx_request_url := ctx_request_url c; ctx_request_body := ctx_request_body c;
       ctx_state := ctx_state c; ctx_status := ctx_status c; ctx_body := Some v |}).

(** [ctx.state[k] = v] *)
Definition set_state (k : string) (v : JsValue) : M unit :=
  modify_ctx (fun c =>
    {| ctx_request_url := ctx_request_url c; ctx_request_body := ctx_request_body c;
       ctx_state := <[k := v]> (ctx_state c); ctx_status := ctx_status c;
       ctx_body := ctx_body c |}).

(** [ctx.state[k]]: [undefined] for a name the state does not hold. *)
Definition state_get (c : Ctx) (k : string) : JsValue :=
  default JUndefined (ctx_state c !! k).

(** ** Timers, the upstream call and the logger *)

(** [new AbortController()] *)
Definition new_AbortController : M nat :=
  fun s =>
    let w := st_world s in
    (Normal (next_controller w),
     {| st_ctx := st_ctx s;
        st_world := {| fetched := fetched w; published := published w;
                       timers := timers w; next_timer := next_timer w;
                       next_controller := S (next_controller w);
                       aborted := aborted w |} |}).

(** Node sets a delay outside 1 .. 2^31-1 to 1. *)
Definition clamp_delay (d : Z) : Z :=
  if (1 <=? d) && (d <=? 2147483647) then d else 1.

(** [setTimeout(() => { controller.abort(); }, d)] *)
Definition setTimeout (controller : nat) (d : Z) : M nat :=
  fun s =>
    let w := st_world s in
    let id := next_timer w in
    (Normal id,
     {| st_ctx := st_ctx s;
        st_world := {| fetched := fetched w; published := published w;
                       timers := <[id := {| t_delay := clamp_delay d;
                                            t_controller := controller |}]> (timers w);
                       next_timer := S id;
                       next_controller := next_controller w;
                       aborted := aborted w |} |}).

(** [clearTimeout(id)] *)
Definition clearTimeout (id : nat) : M unit :=
  modify_world (fun w =>
    {| fetched := fetched w; published := published w;
       timers := delete id (timers w); next_timer := next_timer w;
       next_controller := next_controller w; aborted := aborted w |}).

(** Time passing while the handler awaits: the timers whose delay has run
    out fire (each aborts its controller and is armed no more), the others
    have that much less to wait. *)
Definition elapse (d : Z) (w : World) : World :=
  let fired := filter (fun kt => t_delay kt.2 <= d) (timers w) in
  let waiting := filter (fun kt => d < t_delay kt.2) (timers w) in
  {| fetched := fetched w; published := published w;
     timers := (fun t => {| t_delay := t_delay t - d;
                            t_controller := t_controller t |}) <$> waiting;
     next_timer := next_timer w;
     next_controller := next_controller w;
     aborted := aborted w ∪ list_to_set ((fun kt => t_controller kt.2) <$> map_to_list fired) |}.

(** [await fetch(url, options)]: the call is issued, the handler waits
    until it settles, and the call resolves or rejects as the upstream
    decides -- unless it listens to the signal of a controller that is
    aborted in the meantime, in which case node-fetch rejects it with an
    AbortError. *)
Definition fetch (env : Env) (call : FetchCall) : M Response :=
  modify_world (fun w =>
    {| fetched := fetched w ++ [call]; published := published w;
       timers := timers w; next_timer := next_timer w;
       next_controller := next_controller w; aborted := aborted w |}) ;;
  modify_world (elapse (upstream env call).1) ;;
  w <- get_world ;;
  match fc_signal call with
  | Some controller =>
      if bool_decide (controller ∈ aborted w) then throw AbortError
      else match (upstream env call).2 with
           | Resolves r => ret r
           | Rejects e => throw e
           end
  | None =>
      match (upstream env call).2 with
      | Resolves r => ret r
      | Rejects e => throw e
      end
  end.

(** [this.log.publish(error)] *)
Definition publish (env : Env) (error : JsError) : M unit :=
  modify_world (fun w =>
    {| fetched := fetched w; published := published w ++ [error];
       timers := timers w; next_timer := next_timer w;
       next_controller := next_controller w; aborted := aborted w |}) ;;
  match publish_throws env error with
  | Some e => throw e
  | None => ret tt
  end.

(** ** The authentication middleware (api.js, lines 126-156) *)

(** [await enforceAuth(ctx, endpoint, this.config.get('auth'))] *)
Definition call_enforceAuth (env : Env) (endpoint : Endpoint) : M AuthOutcome :=
  fun s =>
    let '(outcome, ctx') := enforceAuth env (st_ctx s) endpoint (auth_config env) in
    (Normal outcome, {| st_ctx := ctx'; st_world := st_world s |}).

(** [endpoint?.auth?.jwt?.stripFromToken], as a truthy name or nothing *)
Definition strip_name (endpoint : Endpoint) : option string :=
  match auth endpoint with
  | Some a => match jwt a with
              | Some j => match stripFromToken j with
                          | Some n => if String.eqb n "" then None else Some n
                          | None => None
                          end
              | None => None
              end
  | None => None
  end.

(** [keys.forEach(f)] *)
Fixpoint forEach {A} (xs : list A) (f : A -> M unit) : M unit :=
  match xs with
  | [] => ret tt
  | x :: rest => f x ;; forEach rest f
  end.

Definition auth_middleware (env : Env) (endpoint : Endpoint) (next : M unit) : M unit :=
  as_function (
    let tokenPayload := JNull in
    match auth endpoint with
    | Some _ =>
        outcome <- call_enforceAuth env endpoint ;;
        match outcome with
        | AuthFails authError =>
            assign_status (ae_status authError) ;;
            set_body (if String.eqb (ae_message authError) ""
                      then JObj []
                      else JStr (ae_message authError)) ;;
            return_
        | AuthPasses _ =>
            match strip_name endpoint with
            | Some stripFromToken =>
                if truthy tokenPayload then
                  forEach (default [] (Object_keys tokenPayload)) (fun key =>
                    if String.eqb key stripFromToken
                    then set_state stripFromToken (get_own tokenPayload key)
                    else ret tt)
                else ret tt
            | None => ret tt
            end ;;
            next
        end
    | None => next
    end).

(** ** The route handler (api.js, lines 158-290) *)

(** Lines 160-184: the upstream URL. *)
Definition resolve_path (endpoint : Endpoint) (regexpOfPath : string -> option string)
    : M string :=
  ctx <- get_ctx ;;
  match regexpOfPath (ctx_request_url ctx) with
  | Some parsedUrl0 =>
      if includes ":_state_" (path endpoint) then
        match reForAttr_exec (path endpoint) with
        | Some (_, attr) =>
            let newPath := replace_empty (path endpoint) (state_get ctx attr) in
            ret (remoteLocation endpoint ++ newPath)
        | None => throw (TypeError "Cannot read properties of null (reading '1')")
        end
      else ret (remoteLocation endpoint ++ parsedUrl0)
  | None => ret (remoteLocation endpoint ++ remotePath endpoint)
  end.

(** [endpoint.timeout || 300] *)
Definition timer_delay (endpoint : Endpoint) : Z :=
  match timeout endpoint with
  | Some t => if t =? 0 then 300 else t
  | None => 300
  end.

Definition commonHeaders : list (string * string) :=
  [("Content-Type", "application/json")].

(** Lines 208-229: the loop over the required entries, counting the matched
    ones.  ([evaluateTypes] is assigned and never read.) *)
Fixpoint match_required (bodyParams : JsValue) (searchableBodyKeys : list string)
    (requiredParams : list JsValue) (matchedParams : nat) : M nat :=
  match requiredParams with
  | [] => ret matchedParams
  | entry :: rest =>
      match Object_keys entry with
      | None => throw (TypeError "Cannot convert undefined or null to object")
      | Some entryKeys =>
          let paramKey := head entryKeys in
          let paramVal := from_option (get_own entry) JUndefined paramKey in
          let foundKey := paramKey ≫= (fun k => indexOf k searchableBodyKeys) in
          match foundKey with
          | Some i =>
              let bodyKey := default "" (searchableBodyKeys !! i) in
              if truthy paramVal then
                if strict_eq_string (typeof (get_own bodyParams bodyKey)) paramVal
                then match_required bodyParams searchableBodyKeys rest (S matchedParams)
                else match_required bodyParams searchableBodyKeys rest matchedParams
              else match_required bodyParams searchableBodyKeys rest (S matchedParams)
          | None => match_required bodyParams searchableBodyKeys rest matchedParams
          end
      end
  end.

(** Lines 199-238: the required-body check of a post, put or patch. *)
Definition validate_body (endpoint : Endpoint) (ctx : Ctx) : M unit :=
  let bodyParams := ctx_request_body ctx in
  match body_required endpoint with
  | Some requiredParams =>
      match Object_keys bodyParams with
      | None => throw (TypeError "Cannot convert undefined or null to object")
      | Some searchableBodyKeys =>
          matchedParams <- match_required bodyParams searchableBodyKeys requiredParams 0 ;;
          if (matchedParams <? List.length requiredParams)%nat then
            set_status 403 ;;
            set_body (JStr "Request missing expected body parameters") ;;
            return_
          else ret tt
      end
  | None => ret tt
  end.

(** [endpoint?.auth?.jwt?.signTokenData] *)
Definition sign_requested (endpoint : Endpoint) : bool :=
  match auth endpoint with
  | Some a => match jwt a with
              | Some j => signTokenData j
              | None => false
              end
  | None => false
  end.

(** Lines 255-282: the upstream response relayed to the client. *)
Definition relay (env : Env) (endpoint : Endpoint) (response : Response) : M unit :=
  if ok response then
    let data := match r_json response with
                | Some v => v
                | None => JStr (r_text response)
                end in
    returnData <- (if sign_requested endpoint then
                     match global_signJwtToken env with
                     | Some signJwtToken => ret (signJwtToken data)
                     | None => throw (ReferenceError "signJwtToken")
                     end
                   else ret data) ;;
    set_status (r_status response) ;;
    if truthy returnData then set_body returnData else ret tt
  else
    set_status (r_status response) ;;
    if forwardError endpoint then ret tt
    else set_body (JObj [("status", JStr (r_statusText response));
                         ("text", r_body response)]).

Definition is_mutating (m : string) : bool :=
  String.eqb m "post" || String.eqb m "put" || String.eqb m "patch".

Definition is_reading (m : string) : bool :=
  String.eqb m "get" || String.eqb m "delete".

(** Lines 193-282: the body of the [try] block. *)
Definition forward_and_relay (env : Env) (endpoint : Endpoint) (method' remotePath' : string)
    : M unit :=
  ctx <- get_ctx ;;
  response1 <- (if is_mutating method' then
                  validate_body endpoint ctx ;;
                  r <- fetch env {| fc_url := remotePath';
                                    fc_method := method endpoint;
                                    fc_body := Some (ctx_request_body ctx);
                                    fc_headers := commonHeaders;
                                    fc_signal := None |} ;;
                  ret (Some r)
                else ret None) ;;
  response2 <- (if is_reading method' then
                  r <- fetch env {| fc_url := remotePath';
                                    fc_method := method endpoint;
                                    fc_body := None;
                                    fc_headers := commonHeaders;
                                    fc_signal := None |} ;;
                  ret (Some r)
                else ret response1) ;;
  match response2 with
  | Some response => relay env endpoint response
  | None => throw (TypeError "Cannot read properties of undefined (reading 'ok')")
  end.

(** Lines 192-289: the [try] statement, with its [catch] and [finally]. *)
Definition try_forward (env : Env) (endpoint : Endpoint) (remotePath' : string)
    (timeout' : nat) : M unit :=
  try_catch_finally
    (forward_and_relay env endpoint (toLowerCase (method endpoint)) remotePath')
    (fun error => set_status 500 ;; publish env error)
    (clearTimeout timeout').

(** The second callback of the route.  [regexpOfPath] is the [exec] of
    [pathToRegexp(endpoint.path)], captured by the closure. *)
Definition handler (env : Env) (endpoint : Endpoint)
    (regexpOfPath : string -> option string) : M unit :=
  as_function (
    remotePath' <- resolve_path endpoint regexpOfPath ;;
    controller <- new_AbortController ;;
    timeout' <- setTimeout controller (timer_delay endpoint) ;;
    try_forward env endpoint remotePath' timeout').

(** ** Route registration (api.js, lines 113-291) *)

(** A route of the router: its verb, name and template, and the two
    callbacks composed (the middleware with the handler as its [next]). *)
Record Layer : Type := {
  l_method : string;
  l_name : string;
  l_path : string;
  l_dispatch : M unit
}.

(** One turn of [endpoints.forEach]: [pathToRegexp] throws on a template it
    cannot compile, [router[method]] is not a function for a method the
    router does not know, and otherwise the route is pushed on the router's
    stack. *)
Definition mount (env : Env) (router : list Layer) (endpoint : Endpoint)
    : Completion (list Layer) :=
  let method' := toLowerCase (method endpoint) in
  match pathToRegexp env (path endpoint) with
  | None => Throw (TypeError "pathToRegexp: the path does not compile")
  | Some regexpOfPath =>
      if router_verb env method' then
        Normal (router ++ [{| l_method := method';
                              l_name := name endpoint;
                              l_path := path endpoint;
                              l_dispatch := auth_middleware env endpoint
                                              (handler env endpoint regexpOfPath) |}])%list
      else Throw (TypeError "router[method] is not a function")
  end.

(** [endpoints.forEach(...)] on a router: the first throw ends the
    constructor. *)
Fixpoint load_endpoints (env : Env) (router : list Layer) (endpoints : list Endpoint)
    : Completion (list Layer) :=
  match endpoints with
  | [] => Normal router
  | endpoint :: rest =>
      match mount env router endpoint with
      | Normal router' => load_endpoints env router' rest
      | Return => Return
      | Throw e => Throw e
      end
  end.

(** The whole route: the middleware with the handler as its [next]. *)
Definition dispatch (env : Env) (endpoint : Endpoint)
    (regexpOfPath : string -> option string) : M unit :=
  auth_middleware env endpoint (handler env endpoint regexpOfPath).

(** A request as the router hands it to a route, with the collaborators as
    they behave while it is served. *)
Record Request : Type := {
  rq_env : Env;
  rq_endpoint : Endpoint;
  rq_regexpOfPath : string -> option string;
  rq_ctx : Ctx
}.

(** Requests served one after the other, each with a context of its own,
    in the world the previous one left. *)
Fixpoint serve_all (requests : list Request) (w : World) : World :=
  match requests with
  | [] => w
  | rq :: rest =>
      serve_all rest
        (st_world (dispatch (rq_env rq) (rq_endpoint rq) (rq_regexpOfPath rq)
                     {| st_ctx := rq_ctx rq; st_world := w |}).2)
  end.

(** ** The built-in routes (api.js, lines 66-109) *)

(** The handler of the token-validation route (lines 68-77): the token is
    read from the request body by destructuring, which throws on a body that
    is [null] or [undefined]. *)
Definition validate_handler : M unit :=
  as_function (
    ctx <- get_ctx ;;
    match own_entries (ctx_request_body ctx) with
    | None => throw (TypeError "Cannot destructure property 'token' of 'ctx.request.body'")
    | Some _ =>
        let token := get_own (ctx_request_body ctx) "token" in
        if truthy token then ret tt
        else set_status 401 ;; set_body (JStr "")
    end).

(** [auth.oauth.azure]: the values the redirect route reads. *)
Record Azure : Type := {
  clientId : string;
  clientSecret : string;
  redirectUri : string;
  tokenUri : string
}.

(** The template literal of line 93. *)
Definition token_request_url (azure : Azure) (code : JsValue) : string :=
  tokenUri azure ++ "?client_id=" ++ clientId azure
  ++ "&client_secret=" ++ clientSecret azure ++ "&code=" ++ ToString code.

(** [fetch(url)] with no options: a GET with no body, no header of the
    caller's and no signal. *)
Definition plain_call (url : string) : FetchCall :=
  {| fc_url := url; fc_method := "GET"; fc_body := None; fc_headers := [];
     fc_signal := None |}.

(** The handler of the OAuth redirect route (lines 87-107).  [params] is
    [ctx.params], the object of the route's parameters; [code] is
    destructured from [ctx.params.query] before the [try] statement. *)
Definition oauth_redirect_handler (env : Env) (azure : Azure) (params : JsValue) : M unit :=
  as_function (
    match own_entries params with
    | None => throw (TypeError "Cannot read properties of undefined (reading 'query')")
    | Some _ =>
        let query := get_own params "query" in
        match own_entries query with
        | None => throw (TypeError "Cannot destructure property 'code' of 'ctx.params.query'")
        | Some _ =>
            let code := get_own query "code" in
            try_catch_finally
              (response <- fetch env (plain_call (token_request_url azure code)) ;;
               if ok response then
                 match r_json response with
                 | Some data => set_status 200
                 | None => throw (FetchError "invalid json response body")
                 end
               else
                 set_status (r_status response) ;;
                 set_body (JStr ""))
              (fun error => set_status 500 ;; publish env error)
              (ret tt)
        end
    end).

(** ** Notions the statements use *)

(** A string of word characters only. *)
Fixpoint all_word (s : string) : bool :=
  match s with
  | EmptyString => true
  | String c r => is_word_char c && all_word r
  end.

(** The template holds a segment [/users/:_state_<word>]: the marker
    followed by a non-empty word. *)
Definition has_state_segment (template : string) : Prop :=
  exists pre w post,
    template = pre ++ state_marker ++ w ++ post /\ w <> "" /\ all_word w = true.

(** An entry of [body.required] as the configuration declares it: a
    single-key mapping from a field name to the name of its expected type,
    or to [null]. *)
Definition ReqEntry : Type := (string * option string)%type.

(** The entry as the value the handler reads: [{field: "type"}] or
    [{field: null}]. *)
Definition entry_js (e : ReqEntry) : JsValue :=
  JObj [(e.1, from_option JStr JNull e.2)].

(** The field is one of the body's keys. *)
Definition key_present (bodyParams : JsValue) (field : string) : bool :=
  match Object_keys bodyParams with
  | Some keys => existsb (String.eqb field) keys
  | None => false
  end.

(** The body satisfies the entry: the key is present and, when a type name
    is given, the value's [typeof] equals it. *)
Definition satisfied (bodyParams : JsValue) (e : ReqEntry) : bool :=
  key_present bodyParams e.1 &&
  match e.2 with
  | Some type_name => String.eqb (typeof (get_own bodyParams e.1)) type_name
  | None => true
  end.

Definition satisfied_count (bodyParams : JsValue) (entries : list ReqEntry) : nat :=
  List.length (List.filter (satisfied bodyParams) entries).

(** The call a post, put or patch forwards. *)
Definition forwarded_call (endpoint : Endpoint) (url : string) (bodyParams : JsValue)
    : FetchCall :=
  {| fc_url := url; fc_method := method endpoint; fc_body := Some bodyParams;
     fc_headers := commonHeaders; fc_signal := None |}.

(** [respects R m]: whatever way [m] completes, the world it leaves is
    related to the one it found. *)
Definition respects (R : World -> World -> Prop) {A} (m : M A) : Prop :=
  forall s, R (st_world s) (st_world (m s).2).

(** The state in which the [try] statement starts: a controller created
    and the timer armed. *)
Definition armed (endpoint : Endpoint) (s : St) : St :=
  let w := st_world s in
  {| st_ctx := st_ctx s;
     st_world := {| fetched := fetched w; published := published w;
                    timers := <[next_timer w := {| t_delay := clamp_delay (timer_delay endpoint);
                                                   t_controller := next_controller w |}]>
                                (timers w);
                    next_timer := S (next_timer w);
                    next_controller := S (next_controller w);
                    aborted := aborted w |} |}.

(** No timer is armed in [w'] that was not armed in [w]. *)
Definition timers_within (w w' : World) : Prop :=
  dom (timers w') ⊆ dom (timers w).

(** The upstream calls issued so far are the same. *)
Definition same_calls (w w' : World) : Prop := fetched w' = fetched w.

(** The context after [ctx.status = 403] and the generic message. *)
Definition rejected (c : Ctx) : Ctx :=
  {| ctx_request_url := ctx_request_url c; ctx_request_body := ctx_request_body c;
     ctx_state := ctx_state c; ctx_status := 403;
     ctx_body := Some (JStr "Request missing expected body parameters") |}.

(** The body set for a failed authentication: [authError.message || {}]. *)
Definition failure_body (authError : AuthError) : JsValue :=
  if String.eqb (ae_message authError) "" then JObj [] else JStr (ae_message authError).

(** The context of a request the authenticator has rejected. *)
Definition refused (authError : AuthError) (c : Ctx) : Ctx :=
  {| ctx_request_url := ctx_request_url c; ctx_request_body := ctx_request_body c;
     ctx_state := ctx_state c; ctx_status := ae_status authError;
     ctx_body := Some (failure_body authError) |}.


(** From [w] to [w'] calls were issued, none of them listening to an abort
    signal. *)
Definition only_unsignalled_calls (w w' : World) : Prop :=
  exists calls,
    fetched w' = (fetched w ++ calls)%list /\
    Forall (fun call => fc_signal call = None) calls.

(** The definition on its own is accepted by the two libraries: its
    template compiles and its method names a router verb. *)
Definition compiles (env : Env) (endpoint : Endpoint) : Prop :=
  is_Some (pathToRegexp env (path endpoint)) /\
  router_verb env (toLowerCase (method endpoint)) = true.

(** The (method, path) pair of a definition, as registered, and of a
    route. *)
Definition endpoint_key (endpoint : Endpoint) : string * string :=
  (toLowerCase (method endpoint), path endpoint).

Definition route_key (layer : Layer) : string * string :=
  (l_method layer, l_path layer).

(** [ctx.status = code], and [ctx.body = v] when a body is given. *)
Definition responded (code : Z) (v : option JsValue) (c : Ctx) : Ctx :=
  {| ctx_request_url := ctx_request_url c; ctx_request_body := ctx_request_body c;
     ctx_state := ctx_state c; ctx_status := code;
     ctx_body := match v with Some _ => v | None => ctx_body c end |}.


(** The payload of an ok upstream response: the parsed JSON, or the raw
    text when parsing fails. *)
Definition payload (response : Response) : JsValue :=
  match r_json response with
  | Some v => v
  | None => JStr (r_text response)
  end.


(** ** Notions for the forwarding stage as a whole *)

(** The call a get or delete issues. *)
Definition reading_call (endpoint : Endpoint) (url : string) : FetchCall :=
  {| fc_url := url; fc_method := method endpoint; fc_body := None;
     fc_headers := commonHeaders; fc_signal := None |}.

(** The call of a request, by the endpoint's method. *)
Definition call_for (endpoint : Endpoint) (url : string) (bodyParams : JsValue) : FetchCall :=
  if is_mutating (toLowerCase (method endpoint))
  then forwarded_call endpoint url bodyParams
  else reading_call endpoint url.

(** The endpoint forwards with no body check: a get or delete, or a post,
    put or patch that declares no required list. *)
Definition unchecked (endpoint : Endpoint) : Prop :=
  is_reading (toLowerCase (method endpoint)) = true \/
  (is_mutating (toLowerCase (method endpoint)) = true /\ body_required endpoint = None).

(** How an awaited call completes. *)
Definition settled (result : FetchResult) : Completion Response :=
  match result with
  | Resolves r => Normal r
  | Rejects e => Throw e
  end.

(** The state when the awaited call has settled. *)
Definition waited (env : Env) (call : FetchCall) (s : St) : St :=
  let w := st_world s in
  {| st_ctx := st_ctx s;
     st_world := elapse (upstream env call).1
                   {| fetched := fetched w ++ [call]; published := published w;
                      timers := timers w; next_timer := next_timer w;
                      next_controller := next_controller w; aborted := aborted w |} |}.

(** The state after the [catch] block has set status 500 and handed the
    error to the logger. *)
Definition logged (error : JsError) (s : St) : St :=
  let w := st_world s in
  {| st_ctx := responded 500 None (st_ctx s);
     st_world := {| fetched := fetched w; published := published w ++ [error];
                    timers := timers w; next_timer := next_timer w;
                    next_controller := next_controller w; aborted := aborted w |} |}.

(** The state after [clearTimeout(id)]. *)
Definition disarmed (id : nat) (s : St) : St :=
  let w := st_world s in
  {| st_ctx := st_ctx s;
     st_world := {| fetched := fetched w; published := published w;
                    timers := delete id (timers w); next_timer := next_timer w;
                    next_controller := next_controller w; aborted := aborted w |} |}.

(** How the [catch] block completes: by the logger's throw, if it throws. *)
Definition catch_completion (env : Env) (error : JsError) : Completion unit :=
  match publish_throws env error with
  | Some e => Throw e
  | None => Normal tt
  end.

(** The errors handed to the logger so far are the same. *)
Definition same_log (w w' : World) : Prop := published w' = published w.

(** The text after the match does not go on with a word character. *)
Definition word_ends (post : string) : Prop := take_word post = "".

(** The value is [null] or [undefined]. *)
Definition nullish (v : JsValue) : bool :=
  match v with
  | JNull | JUndefined => true
  | _ => false
  end.

(** ** Sample configurations and requests *)

(** A process that has served nothing yet. *)
Definition idle : World :=
  {| fetched := []; published := []; timers := ∅; next_timer := 0;
     next_controller := 0; aborted := ∅ |}.

(** A request arriving in the idle process: koa starts a context with
    status 404 and no body. *)
Definition arriving (url : string) (requestBody : JsValue)
    (claims : gmap string JsValue) : St :=
  {| st_ctx := {| ctx_request_url := url; ctx_request_body := requestBody;
                  ctx_state := claims; ctx_status := 404; ctx_body := None |};
     st_world := idle |}.

(** The expression of a template with no parameter: it matches the
    template. *)
Definition exactly (template : string) : string -> option string :=
  fun url => if String.eqb url template then Some url else None.

(** The expression of [prefix:param]: the prefix and one non-empty segment. *)
Definition one_segment_after (prefix : string) : string -> option string :=
  fun url =>
    match strip_prefix prefix url with
    | Some EmptyString => None
    | Some segment => if includes "/" segment then None else Some url
    | None => None
    end.

Definition http_verbs : list string := ["get"; "post"; "put"; "patch"; "delete"].

(** The template up to its first colon, and what follows the colon. *)
Fixpoint before_colon (template : string) : string * option string :=
  match template with
  | EmptyString => (EmptyString, None)
  | String c rest =>
      if Ascii.eqb c ":" then (EmptyString, Some rest)
      else let '(prefix, param) := before_colon rest in (String c prefix, param)
  end.

(** path-to-regexp on the two shapes of template the samples use: no
    parameter, or one parameter that ends the template.  Any other template
    is taken not to compile. *)
Definition sample_pathToRegexp (template : string) : option (string -> option string) :=
  match before_colon template with
  | (_, None) => Some (exactly template)
  | (prefix, Some param) =>
      if all_word param && negb (String.eqb param "")
      then Some (one_segment_after prefix)
      else None
  end.

(** Collaborators for the samples: the router knows the five verbs, the
    logger does not throw. *)
Definition sample_env (authenticator : Ctx -> Endpoint -> JsValue -> AuthOutcome * Ctx)
    (service : FetchCall -> Z * FetchResult) (signer : option (JsValue -> JsValue)) : Env :=
  {| pathToRegexp := sample_pathToRegexp;
     router_verb := fun m => existsb (String.eqb m) http_verbs;
     auth_config := JObj [];
     enforceAuth := authenticator;
     upstream := service;
     global_signJwtToken := signer;
     publish_throws := fun _ => None |}.

Definition json_response (code : Z) (text : string) (payload : JsValue) : Response :=
  {| r_status := code; r_statusText := text; r_json := Some payload;
     r_text := ToString payload; r_body := JStr "[stream]" |}.

(** An upstream that answers every call after [latency] with [response]. *)
Definition answers (latency : Z) (response : Response) : FetchCall -> Z * FetchResult :=
  fun _ => (latency, Resolves response).

(** An authenticator that accepts the token and returns its decoded
    payload, leaving the context as it is. *)
Definition accepts (decoded : JsValue) : Ctx -> Endpoint -> JsValue -> AuthOutcome * Ctx :=
  fun ctx _ _ => (AuthPasses decoded, ctx).

(** An authenticator that rejects with a status and a message. *)
Definition rejects (code : Z) (message : string)
    : Ctx -> Endpoint -> JsValue -> AuthOutcome * Ctx :=
  fun ctx _ _ => (AuthFails {| ae_status := code; ae_message := message |}, ctx).

Definition token_42 : JsValue := JObj [("userId", JStr "42"); ("role", JStr "admin")].

(** [GET /users/:_state_userId], the claim [userId] stripped from the
    token. *)
Definition own_profile : Endpoint :=
  {| name := "own-profile"; method := "GET"; path := "/users/:_state_userId";
     remoteLocation := "http://users.internal"; remotePath := "/users";
     timeout := None;
     auth := Some {| jwt := Some {| stripFromToken := Some "userId";
                                    signTokenData := false |} |};
     body_required := None; forwardError := false |}.

(** [GET /accounts/:_state_userId]: a state token outside [/users/]. *)
Definition own_account : Endpoint :=
  {| name := "own-account"; method := "GET"; path := "/accounts/:_state_userId";
     remoteLocation := "http://accounts.internal"; remotePath := "/accounts";
     timeout := None; auth := None; body_required := None; forwardError := false |}.

(** [GET /status], with a timeout of 300. *)
Definition status_page : Endpoint :=
  {| name := "status"; method := "GET"; path := "/status";
     remoteLocation := "http://status.internal"; remotePath := "/status";
     timeout := Some 300; auth := None; body_required := None; forwardError := false |}.

(** [GET /status] with [forwardError] set. *)
Definition status_page_forwarding : Endpoint :=
  {| name := "status"; method := "GET"; path := "/status";
     remoteLocation := "http://status.internal"; remotePath := "/status";
     timeout := Some 300; auth := None; body_required := None; forwardError := true |}.

(** [GET /session], its response data to be signed. *)
Definition session : Endpoint :=
  {| name := "session"; method := "GET"; path := "/session";
     remoteLocation := "http://sessions.internal"; remotePath := "/session";
     timeout := None;
     auth := Some {| jwt := Some {| stripFromToken := None; signTokenData := true |} |};
     body_required := None; forwardError := false |}.

(** [POST /people] with [body.required = [{name: "string"}, {age: null}]]. *)
Definition people_required : list ReqEntry := [("name", Some "string"); ("age", None)].

Definition signup : Endpoint :=
  {| name := "signup"; method := "POST"; path := "/people";
     remoteLocation := "http://people.internal"; remotePath := "/people";
     timeout := None; auth := None;
     body_required := Some (entry_js <$> people_required); forwardError := false |}.

Definition alice_only : JsValue := JObj [("name", JStr "Alice")].
Definition alice_30 : JsValue := JObj [("name", JStr "Alice"); ("age", JNum 30)].

Definition open_env : Env :=
  sample_env (accepts token_42) (answers 20 (json_response 200 "OK" (JObj [("id", JNum 7)]))) None.

(** The same, the upstream answering after 1000. *)
Definition slow_env : Env :=
  sample_env (accepts token_42) (answers 1000 (json_response 200 "OK" (JObj [("id", JNum 7)]))) None.

(** The upstream answers 404 with a body of its own. *)
Definition not_found : Response :=
  {| r_status := 404; r_statusText := "Not Found"; r_json := None;
     r_text := "no such page"; r_body := JStr "no such page" |}.

Definition missing_env : Env := sample_env (accepts token_42) (answers 20 not_found) None.

(** The authenticator rejects with status 401 and an empty message. *)
Definition silent_reject_env : Env :=
  sample_env (rejects 401 "") (answers 20 (json_response 200 "OK" (JObj []))) None.

Definition forbidden_env : Env :=
  sample_env (rejects 403 "token expired") (answers 20 (json_response 200 "OK" (JObj []))) None.


(** [HEAD /status]: a verb the router knows and the handler does not. *)
Definition status_head : Endpoint :=
  {| name := "status-head"; method := "HEAD"; path := "/status";
     remoteLocation := "http://status.internal"; remotePath := "/status";
     timeout := None; auth := None; body_required := None; forwardError := false |}.

(** [POST /notes], no required list. *)
Definition notes : Endpoint :=
  {| name := "notes"; method := "POST"; path := "/notes";
     remoteLocation := "http://notes.internal"; remotePath := "/notes";
     timeout := None; auth := None; body_required := None; forwardError := false |}.

(** The upstream refuses the connection. *)
Definition refused_connection : JsError := FetchError "connect ECONNREFUSED".

Definition unreachable_env : Env :=
  sample_env (accepts token_42) (fun _ => (5, Rejects refused_connection)) None.





Definition azure_sample : Azure :=
  {| clientId := "gateway"; clientSecret := "s3cret"; redirectUri := "/oauth/azure";
     tokenUri := "https://login.example/token" |}.

(** [POST /people] with a required list whose second entry is [null]. *)
Definition signup_null_entry : Endpoint :=
  {| name := "signup"; method := "POST"; path := "/people";
     remoteLocation := "http://people.internal"; remotePath := "/people";
     timeout := None; auth := None;
     body_required := Some [JObj [("name", JStr "string")]; JNull];
     forwardError := false |}.
(** * Properties *)

(** ** Sequencing *)

Lemma bind_Normal {A B} (m : M A) (k : A -> M B) s a s' :
  m s = (Normal a, s') -> bind m k s = k a s'.
Proof. intros H. unfold bind. rewrite H. reflexivity. Qed.

Lemma bind_Return {A B} (m : M A) (k : A -> M B) s s' :
  m s = (Return, s') -> bind m k s = (Return, s').
Proof. intros H. unfold bind. rewrite H. reflexivity. Qed.

Lemma bind_Throw {A B} (m : M A) (k : A -> M B) s e s' :
  m s = (Throw e, s') -> bind m k s = (Throw e, s').
Proof. intros H. unfold bind. rewrite H. reflexivity. Qed.

Lemma bind_assoc {A B C} (m : M A) (f : A -> M B) (g : B -> M C) s :
  bind (bind m f) g s = bind m (fun x => bind (f x) g) s.
Proof. unfold bind. destruct (m s) as [[a | | e] s1]; reflexivity. Qed.

Lemma bind_get_ctx {B} (k : Ctx -> M B) s : bind get_ctx k s = k (st_ctx s) s.
Proof. reflexivity. Qed.

Lemma bind_ret {A B} (a : A) (k : A -> M B) s : bind (ret a) k s = k a s.
Proof. reflexivity. Qed.

(** ** Unfolding the handler *)

Lemma as_function_state (m : M unit) s : (as_function m s).2 = (m s).2.
Proof. unfold as_function. destruct (m s) as [[a | | e] s1]; reflexivity. Qed.

Lemma resolve_path_state endpoint regexpOfPath s :
  (resolve_path endpoint regexpOfPath s).2 = s.
Proof.
  unfold resolve_path, bind, get_ctx. simpl.
  destruct (regexpOfPath _); [| reflexivity].
  destruct (includes _ _); [| reflexivity].
  destruct (reForAttr_exec _) as [[? ?] |]; reflexivity.
Qed.

Lemma handler_unfold env endpoint regexpOfPath s :
  handler env endpoint regexpOfPath s =
  match (resolve_path endpoint regexpOfPath s).1 with
  | Normal url =>
      as_function (try_forward env endpoint url (next_timer (st_world s))) (armed endpoint s)
  | Return => (Normal tt, s)
  | Throw e => (Throw e, s)
  end.
Proof.
  pose proof (resolve_path_state endpoint regexpOfPath s) as Hs.
  unfold handler, as_function, bind at 1.
  destruct (resolve_path endpoint regexpOfPath s) as [[url | | e] s1];
    simpl in *; subst s1; reflexivity.
Qed.

(** ** What a computation leaves of the world *)

Section Frame.
Variable R : World -> World -> Prop.
Local Abbreviation respects := (respects R).
Hypothesis R_refl : forall w, R w w.
Hypothesis R_trans : forall a b c, R a b -> R b c -> R a c.

Lemma respects_ret {A} (a : A) : respects (ret a).
Proof. intros s. apply R_refl. Qed.

Lemma respects_throw {A} (e : JsError) : respects (@throw A e).
Proof. intros s. apply R_refl. Qed.

Lemma respects_return {A} : respects (@return_ A).
Proof. intros s. apply R_refl. Qed.

Lemma respects_get_ctx : respects get_ctx.
Proof. intros s. apply R_refl. Qed.

Lemma respects_modify_ctx (f : Ctx -> Ctx) : respects (modify_ctx f).
Proof. intros s. apply R_refl. Qed.

Lemma respects_modify_world (f : World -> World) :
  (forall w, R w (f w)) -> respects (modify_world f).
Proof. intros Hf s. apply Hf. Qed.

Lemma respects_bind {A B} (m : M A) (k : A -> M B) :
  respects m -> (forall a, respects (k a)) -> respects (bind m k).
Proof.
  intros Hm Hk s. unfold bind. specialize (Hm s).
  destruct (m s) as [[a | | e] s1]; simpl in *; try exact Hm.
  eapply R_trans; [exact Hm | apply Hk].
Qed.

Lemma respects_as_function (m : M unit) : respects m -> respects (as_function m).
Proof.
  intros Hm s. unfold as_function. specialize (Hm s).
  destruct (m s) as [[a | | e] s1]; exact Hm.
Qed.

Lemma respects_try {A} (body : M A) (h : JsError -> M A) (fin : M unit) :
  respects body -> (forall e, respects (h e)) -> respects fin ->
  respects (try_catch_finally body h fin).
Proof.
  intros Hb Hh Hf s. unfold try_catch_finally.
  specialize (Hb s). destruct (body s) as [c1 s1]. simpl in Hb.
  assert (Hc : forall c2 s2,
             match c1 with Throw e => h e s1 | _ => (c1, s1) end = (c2, s2) ->
             R (st_world s) (st_world s2)).
  { intros c2 s2 Heq. destruct c1 as [a | | e].
    - inversion Heq; subst; exact Hb.
    - inversion Heq; subst; exact Hb.
    - eapply R_trans; [exact Hb |]. specialize (Hh e s1). rewrite Heq in Hh. exact Hh. }
  destruct (match c1 with Throw e => h e s1 | _ => (c1, s1) end) as [c2 s2].
  specialize (Hc c2 s2 eq_refl). specialize (Hf s2).
  destruct (fin s2) as [[u | | e] s3]; simpl in *; eapply R_trans; eauto.
Qed.

Lemma respects_forEach {A} (xs : list A) (f : A -> M unit) :
  (forall x, respects (f x)) -> respects (forEach xs f).
Proof.
  intros Hf. induction xs as [| x xs IH]; simpl.
  - apply respects_ret.
  - apply respects_bind; [apply Hf | intros _; exact IH].
Qed.

Lemma respects_set_status code : respects (set_status code).
Proof. apply respects_modify_ctx. Qed.

Lemma respects_assign_status code : respects (assign_status code).
Proof.
  unfold assign_status. destruct (koa_accepts code);
    [apply respects_set_status | apply respects_throw].
Qed.

Lemma respects_set_body v : respects (set_body v).
Proof. apply respects_modify_ctx. Qed.

Lemma respects_set_state k v : respects (set_state k v).
Proof. apply respects_modify_ctx. Qed.

Lemma respects_call_enforceAuth env endpoint : respects (call_enforceAuth env endpoint).
Proof.
  intros s. unfold call_enforceAuth.
  destruct (enforceAuth env (st_ctx s) endpoint (auth_config env)); apply R_refl.
Qed.

Lemma respects_resolve_path endpoint regexpOfPath :
  respects (resolve_path endpoint regexpOfPath).
Proof.
  unfold resolve_path. apply respects_bind; [apply respects_get_ctx |].
  intros ctx. destruct (regexpOfPath _); [| apply respects_ret].
  destruct (includes _ _); [| apply respects_ret].
  destruct (reForAttr_exec _) as [[? ?] |]; [apply respects_ret | apply respects_throw].
Qed.

Lemma respects_match_required bodyParams keys requiredParams n :
  respects (match_required bodyParams keys requiredParams n).
Proof.
  revert n. induction requiredParams as [| entry rest IH]; intros n; simpl.
  - apply respects_ret.
  - destruct (Object_keys entry) as [entryKeys |]; [| apply respects_throw].
    destruct (head entryKeys ≫= _); [| apply IH].
    destruct (truthy _); [| apply IH].
    destruct (strict_eq_string _ _); apply IH.
Qed.

Lemma respects_validate_body endpoint ctx : respects (validate_body endpoint ctx).
Proof.
  unfold validate_body. destruct (body_required endpoint); [| apply respects_ret].
  destruct (Object_keys _); [| apply respects_throw].
  apply respects_bind; [apply respects_match_required |].
  intros n. destruct (_ <? _)%nat; [| apply respects_ret].
  apply respects_bind; [apply respects_set_status |]. intros _.
  apply respects_bind; [apply respects_set_body |]. intros _.
  apply respects_return.
Qed.

Lemma respects_relay env endpoint response : respects (relay env endpoint response).
Proof.
  unfold relay. destruct (ok response).
  - apply respects_bind.
    + destruct (sign_requested endpoint); [| apply respects_ret].
      destruct (global_signJwtToken env); [apply respects_ret | apply respects_throw].
    + intros v. apply respects_bind; [apply respects_set_status |]. intros _.
      destruct (truthy v); [apply respects_set_body | apply respects_ret].
  - apply respects_bind; [apply respects_set_status |]. intros _.
    destruct (forwardError endpoint); [apply respects_ret | apply respects_set_body].
Qed.

Lemma respects_forward_and_relay env endpoint method' remotePath' :
  (forall call, fc_signal call = None -> respects (fetch env call)) ->
  respects (forward_and_relay env endpoint method' remotePath').
Proof.
  intros Hfetch. unfold forward_and_relay.
  apply respects_bind; [apply respects_get_ctx |]. intros ctx.
  apply respects_bind.
  { destruct (is_mutating method'); [| apply respects_ret].
    apply respects_bind; [apply respects_validate_body |]. intros _.
    apply respects_bind; [apply Hfetch; reflexivity |]. intros r. apply respects_ret. }
  intros response1. apply respects_bind.
  { destruct (is_reading method'); [| apply respects_ret].
    apply respects_bind; [apply Hfetch; reflexivity |]. intros r. apply respects_ret. }
  intros [response |]; [apply respects_relay | apply respects_throw].
Qed.

Lemma respects_auth_middleware env endpoint next :
  respects next -> respects (auth_middleware env endpoint next).
Proof.
  intros Hnext. unfold auth_middleware. apply respects_as_function.
  destruct (auth endpoint); [| exact Hnext].
  apply respects_bind; [apply respects_call_enforceAuth |].
  intros [authError | decoded].
  - apply respects_bind; [apply respects_assign_status |]. intros _.
    apply respects_bind; [apply respects_set_body |]. intros _.
    apply respects_return.
  - apply respects_bind; [| intros _; exact Hnext].
    destruct (strip_name endpoint); [| apply respects_ret].
    simpl. apply respects_ret.
Qed.
End Frame.

(** ** The timer of the forwarding stage *)

Lemma timers_within_refl w : timers_within w w.
Proof. unfold timers_within. set_solver. Qed.

Lemma timers_within_trans a b c :
  timers_within a b -> timers_within b c -> timers_within a c.
Proof. unfold timers_within. set_solver. Qed.

Lemma elapse_timers_within d w : timers_within w (elapse d w).
Proof.
  unfold timers_within, elapse. simpl. rewrite dom_fmap.
  intros id Hid. apply elem_of_dom in Hid as [t Ht].
  apply map_lookup_filter_Some in Ht as [Ht _].
  apply elem_of_dom. eauto.
Qed.

Lemma fetch_timers_within env call : respects timers_within (fetch env call).
Proof.
  unfold fetch.
  apply respects_bind; [exact timers_within_trans | |].
  { apply respects_modify_world. intros w. unfold timers_within. simpl. set_solver. }
  intros _. apply respects_bind; [exact timers_within_trans | |].
  { apply respects_modify_world. intros w. apply elapse_timers_within. }
  intros _. apply respects_bind; [exact timers_within_trans | |].
  { intros s. apply timers_within_refl. }
  intros s'. destruct (fc_signal call) as [controller |].
  - destruct (bool_decide _); [apply respects_throw, timers_within_refl |].
    destruct (upstream env call).2.
    + apply respects_ret, timers_within_refl.
    + apply respects_throw, timers_within_refl.
  - destruct (upstream env call).2.
    + apply respects_ret, timers_within_refl.
    + apply respects_throw, timers_within_refl.
Qed.

Lemma publish_timers_within env error : respects timers_within (publish env error).
Proof.
  unfold publish.
  apply respects_bind; [exact timers_within_trans | |].
  { apply respects_modify_world. intros w. unfold timers_within. simpl. set_solver. }
  intros _. destruct (publish_throws env error).
  - apply respects_throw, timers_within_refl.
  - apply respects_ret, timers_within_refl.
Qed.

(** The [try] statement, entered with the timer [id] armed, leaves [id]
    disarmed and arms nothing else, however it completes. *)
Lemma try_forward_disarms env endpoint remotePath' id s :
  dom (timers (st_world (try_forward env endpoint remotePath' id s).2))
    ⊆ dom (timers (st_world s)) ∖ {[id]}.
Proof.
  unfold try_forward, try_catch_finally.
  pose proof (respects_forward_and_relay timers_within timers_within_refl
                timers_within_trans env endpoint (toLowerCase (method endpoint))
                remotePath' (fun call _ => fetch_timers_within env call) s) as Hb.
  destruct (forward_and_relay env endpoint _ remotePath' s) as [c1 s1].
  simpl in Hb.
  assert (Hc : timers_within (st_world s)
                 (st_world (match c1 with
                            | Throw e => (set_status 500 ;; publish env e) s1
                            | _ => (c1, s1)
                            end).2)).
  { destruct c1 as [a | | e]; simpl; try exact Hb.
    eapply timers_within_trans; [exact Hb |].
    apply (respects_bind timers_within timers_within_trans).
    - apply respects_set_status, timers_within_refl.
    - intros _. apply publish_timers_within. }
  destruct (match c1 with
            | Throw e => (set_status 500 ;; publish env e) s1
            | _ => (c1, s1)
            end) as [c2 s2].
  simpl in *. unfold timers_within in Hc.
  rewrite dom_delete_L. set_solver.
Qed.

Lemma handler_timers_within env endpoint regexpOfPath :
  respects timers_within (handler env endpoint regexpOfPath).
Proof.
  intros s. rewrite handler_unfold.
  destruct (resolve_path endpoint regexpOfPath s).1 as [url | | e];
    try apply timers_within_refl.
  rewrite as_function_state.
  pose proof (try_forward_disarms env endpoint url (next_timer (st_world s))
                (armed endpoint s)) as Hg.
  unfold timers_within. simpl in Hg. rewrite dom_insert_L in Hg. set_solver.
Qed.

Lemma dispatch_timers_within env endpoint regexpOfPath :
  respects timers_within (dispatch env endpoint regexpOfPath).
Proof.
  unfold dispatch. apply respects_auth_middleware.
  - exact timers_within_refl.
  - exact timers_within_trans.
  - apply handler_timers_within.
Qed.

(** C9.  The timer the handler arms before the upstream call is disarmed on
    every exit of the forwarding stage: the [try] statement, entered with
    the timer [id] armed, leaves [id] disarmed however it completes
    (response relayed, non-ok status, rejected body, error thrown and logged,
    error thrown by the logger).  So, whatever the requests and the upstream
    outcomes, after any number of requests served one after the other no
    timer is armed that was not armed before the first; started with none
    armed, none is armed at the end. *)
Theorem timer_always_disarmed :
  (forall (env : Env) (endpoint : Endpoint) (url : string) (id : nat) (s : St),
     id ∉ dom (timers (st_world (try_forward env endpoint url id s).2))) /\
  (forall (requests : list Request) (w : World),
     dom (timers (serve_all requests w)) ⊆ dom (timers w) /\
     (timers w = ∅ -> timers (serve_all requests w) = ∅)).
Proof.
  split.
  - intros env endpoint url id s.
    pose proof (try_forward_disarms env endpoint url id s). set_solver.
  - intros requests w.
    assert (H : dom (timers (serve_all requests w)) ⊆ dom (timers w)).
    { revert w. induction requests as [| rq rest IH]; intros w; simpl; [set_solver |].
      etransitivity; [apply IH |].
      apply (dispatch_timers_within (rq_env rq) (rq_endpoint rq) (rq_regexpOfPath rq)
               {| st_ctx := rq_ctx rq; st_world := w |}). }
    split; [exact H |].
    intros Hw. rewrite Hw, dom_empty_L in H.
    apply dom_empty_iff_L. set_solver.
Qed.

Lemma timer_always_disarmed_witness :
  timers (serve_all
            [ {| rq_env := slow_env; rq_endpoint := status_page;
                 rq_regexpOfPath := exactly "/status";
                 rq_ctx := st_ctx (arriving "/status" (JObj []) ∅) |};
              {| rq_env := open_env; rq_endpoint := signup;
                 rq_regexpOfPath := exactly "/people";
                 rq_ctx := st_ctx (arriving "/people" alice_only ∅) |};
              {| rq_env := missing_env; rq_endpoint := own_account;
                 rq_regexpOfPath := one_segment_after "/accounts/";
                 rq_ctx := st_ctx (arriving "/accounts/me" (JObj []) ∅) |} ]
            idle)
  = ∅.
Proof.
  apply (proj2 timer_always_disarmed). reflexivity.
Defined.

(** ** The state-token branch of path resolution *)

Lemma append_nil_l (s : string) : "" ++ s = s.
Proof. reflexivity. Qed.

Lemma append_cons (c : ascii) (a b : string) : String c a ++ b = String c (a ++ b).
Proof. reflexivity. Qed.

Lemma strip_prefix_Some p s rest : strip_prefix p s = Some rest -> s = p ++ rest.
Proof.
  revert s. induction p as [| a p IH]; intros s H; simpl in H.
  - rewrite append_nil_l. congruence.
  - destruct s as [| b s]; [discriminate |].
    destruct (Ascii.eqb a b) eqn:E; [| discriminate].
    apply Ascii.eqb_eq in E. subst b. rewrite append_cons. f_equal. apply IH. exact H.
Qed.

Lemma strip_prefix_app p rest : strip_prefix p (p ++ rest) = Some rest.
Proof.
  induction p as [| a p IH].
  - rewrite append_nil_l. destruct rest; reflexivity.
  - rewrite append_cons. simpl. rewrite Ascii.eqb_refl. exact IH.
Qed.

Lemma take_word_split s : exists rest, s = take_word s ++ rest.
Proof.
  induction s as [| c s [rest IH]]; simpl.
  - exists "". reflexivity.
  - destruct (is_word_char c).
    + exists rest. rewrite append_cons. f_equal. exact IH.
    + exists (String c s). reflexivity.
Qed.

Lemma take_word_all_word s : all_word (take_word s) = true.
Proof.
  induction s as [| c s IH]; simpl; [reflexivity |].
  destruct (is_word_char c) eqn:E; simpl; [| reflexivity].
  rewrite E. exact IH.
Qed.

Lemma take_word_app_nonempty w post :
  w <> "" -> all_word w = true -> take_word (w ++ post) <> "".
Proof.
  destruct w as [| c w]; [congruence |]. rewrite append_cons. simpl.
  intros _ H. apply andb_prop in H as [Hc _]. rewrite Hc. discriminate.
Qed.

Lemma append_assoc (a b c : string) : (a ++ b) ++ c = a ++ (b ++ c).
Proof.
  induction a as [| x a IH]; [reflexivity |].
  rewrite !append_cons. f_equal. exact IH.
Qed.

(** A match of the extraction expression exhibits a segment. *)
Lemma reForAttr_exec_sound template m attr :
  reForAttr_exec template = Some (m, attr) ->
  exists pre post,
    template = pre ++ state_marker ++ attr ++ post /\ attr <> "" /\ all_word attr = true.
Proof.
  induction template as [| c template IH].
  - simpl. discriminate.
  - intros H. unfold reForAttr_exec in H. fold reForAttr_exec in H.
    destruct (strip_prefix state_marker (String c template)) as [rest |] eqn:Hp.
    + destruct (take_word rest) as [| d w] eqn:Hw.
      * apply IH in H as (pre & post & -> & Hne & Hall).
        exists (String c pre), post. auto.
      * inversion H; subst m attr.
        apply strip_prefix_Some in Hp.
        destruct (take_word_split rest) as [post Hpost].
        exists "", post. rewrite <- Hw. split; [| split].
        -- rewrite append_nil_l, Hp. f_equal. exact Hpost.
        -- rewrite Hw. discriminate.
        -- apply take_word_all_word.
    + apply IH in H as (pre & post & -> & Hne & Hall).
      exists (String c pre), post. auto.
Qed.

(** A template with a segment is matched. *)
Lemma reForAttr_exec_complete template :
  has_state_segment template -> is_Some (reForAttr_exec template).
Proof.
  intros (pre & w & post & -> & Hne & Hall).
  induction pre as [| c pre IH].
  - rewrite append_nil_l.
    pose proof (take_word_app_nonempty w post Hne Hall) as Hw.
    destruct (state_marker ++ w ++ post) as [| c0 t0] eqn:Et.
    { unfold state_marker in Et. simpl in Et. discriminate. }
    unfold reForAttr_exec. fold reForAttr_exec.
    rewrite <- Et, strip_prefix_app.
    destruct (take_word (w ++ post)); [congruence | eauto].
  - rewrite append_cons.
    unfold reForAttr_exec. fold reForAttr_exec.
    destruct (match strip_prefix state_marker (String c (pre ++ state_marker ++ w ++ post)) with
              | Some rest => match take_word rest with
                             | EmptyString => None
                             | String a s => Some (state_marker ++ String a s, String a s)
                             end
              | None => None
              end); [eauto | exact IH].
Qed.

Lemma reForAttr_exec_None template :
  ~ has_state_segment template <-> reForAttr_exec template = None.
Proof.
  split.
  - intros Hno. destruct (reForAttr_exec template) as [[m attr] |] eqn:E; [| reflexivity].
    exfalso. apply Hno. apply reForAttr_exec_sound in E as (pre & post & ? & ? & ?).
    exists pre, attr, post. auto.
  - intros E Hseg. apply reForAttr_exec_complete in Hseg as [x Hx]. congruence.
Qed.

(** C10.  When the request path matches the compiled route and the path
    template contains [:_state_] but no segment of the form
    [/users/:_state_<word>], the extraction expression yields [null] and
    indexing it throws a TypeError before the [try] statement is entered:
    the handler completes by that throw, with the context and the world as
    it found them -- no status 500 set, nothing published to the logger, no
    timer armed and no upstream URL produced or called. *)
Theorem malformed_state_token_escapes_handler :
  forall (env : Env) (endpoint : Endpoint) (regexpOfPath : string -> option string)
         (s : St) (parsedUrl0 : string),
    regexpOfPath (ctx_request_url (st_ctx s)) = Some parsedUrl0 ->
    includes ":_state_" (path endpoint) = true ->
    ~ has_state_segment (path endpoint) ->
    handler env endpoint regexpOfPath s
    = (Throw (TypeError "Cannot read properties of null (reading '1')"), s).
Proof.
  intros env endpoint regexpOfPath s parsedUrl0 Hmatch Hincl Hseg.
  apply reForAttr_exec_None in Hseg.
  rewrite handler_unfold.
  unfold resolve_path, bind, get_ctx. simpl.
  rewrite Hmatch, Hincl, Hseg. reflexivity.
Qed.

Lemma malformed_state_token_witness :
  handler open_env own_account (one_segment_after "/accounts/")
    (arriving "/accounts/me" (JObj []) {["userId" := JStr "42"]})
  = (Throw (TypeError "Cannot read properties of null (reading '1')"),
     arriving "/accounts/me" (JObj []) {["userId" := JStr "42"]}).
Proof.
  apply (malformed_state_token_escapes_handler open_env own_account
           (one_segment_after "/accounts/")
           (arriving "/accounts/me" (JObj []) {["userId" := JStr "42"]})
           "/accounts/me").
  - reflexivity.
  - reflexivity.
  - apply reForAttr_exec_None. reflexivity.
Defined.

(** ** The required-body check *)

Lemma same_calls_refl w : same_calls w w.
Proof. reflexivity. Qed.

Lemma same_calls_trans a b c : same_calls a b -> same_calls b c -> same_calls a c.
Proof. unfold same_calls. congruence. Qed.

Lemma publish_same_calls env error : respects same_calls (publish env error).
Proof.
  unfold publish. apply respects_bind; [exact same_calls_trans | |].
  { apply respects_modify_world. intros w. reflexivity. }
  intros _. destruct (publish_throws env error).
  - apply respects_throw, same_calls_refl.
  - apply respects_ret, same_calls_refl.
Qed.

Lemma clearTimeout_same_calls id : respects same_calls (clearTimeout id).
Proof. apply respects_modify_world. intros w. reflexivity. Qed.

Lemma fetch_appends env call s :
  fetched (st_world (fetch env call s).2) = (fetched (st_world s) ++ [call])%list.
Proof.
  unfold fetch, bind, modify_world. simpl.
  destruct (fc_signal call) as [controller |];
    [destruct (bool_decide _); [reflexivity |] |];
    destruct (upstream env call).2; reflexivity.
Qed.

(** What follows the body of a [try] statement keeps a relation that its
    handler and finalizer keep. *)
Lemma try_after_body (R : World -> World -> Prop) {A} (body : M A) h fin s :
  (forall w, R w w) -> (forall a b c, R a b -> R b c -> R a c) ->
  (forall e, respects R (h e)) -> respects R fin ->
  R (st_world (body s).2) (st_world (try_catch_finally body h fin s).2).
Proof.
  intros Rrefl Rtrans Hh Hf. unfold try_catch_finally.
  destruct (body s) as [c1 s1]. simpl.
  assert (Hc : R (st_world s1)
                 (st_world (match c1 with Throw e => h e s1 | _ => (c1, s1) end).2)).
  { destruct c1 as [a | | e]; simpl; try apply Rrefl. apply Hh. }
  destruct (match c1 with Throw e => h e s1 | _ => (c1, s1) end) as [c2 s2].
  simpl in Hc. specialize (Hf s2).
  destruct (fin s2) as [[u | | e] s3]; simpl in *; eauto.
Qed.

Lemma indexOf_lookup k keys i : indexOf k keys = Some i -> keys !! i = Some k.
Proof.
  revert i. induction keys as [| k' keys IH]; intros i H; simpl in H; [discriminate |].
  destruct (String.eqb k' k) eqn:E.
  - inversion H; subst i. apply String.eqb_eq in E. subst k'. reflexivity.
  - destruct (indexOf k keys) as [j |]; [| discriminate].
    inversion H; subst i. simpl. apply IH. reflexivity.
Qed.

Lemma indexOf_found k keys : is_Some (indexOf k keys) <-> existsb (String.eqb k) keys = true.
Proof.
  induction keys as [| k' keys IH]; simpl.
  - split; [intros [x Hx]; discriminate | discriminate].
  - rewrite (String.eqb_sym k k'). destruct (String.eqb k' k); simpl.
    + split; eauto.
    + rewrite <- IH. destruct (indexOf k keys); simpl; split; eauto;
        intros [x Hx]; discriminate.
Qed.

Lemma get_own_entry_js field ty :
  get_own (entry_js (field, ty)) field = from_option JStr JNull ty.
Proof.
  unfold get_own, entry_js. simpl. rewrite String.eqb_refl. reflexivity.
Qed.

(** On entries of the declared shape the loop counts the satisfied ones. *)
Lemma match_required_counts bodyParams keys entries n s :
  Object_keys bodyParams = Some keys ->
  Forall (fun e : ReqEntry => e.2 <> Some "") entries ->
  match_required bodyParams keys (entry_js <$> entries) n s
  = (Normal (n + satisfied_count bodyParams entries)%nat, s).
Proof.
  intros Hkeys Hwf. revert n.
  induction Hwf as [| [field ty] entries Hty _ IH]; intros n.
  - unfold satisfied_count. simpl. rewrite Nat.add_0_r. reflexivity.
  - cbn [fmap list_fmap match_required entry_js Object_keys own_entries
           option_fmap option_map List.map fst snd head mbind option_bind from_option].
    rewrite get_own_entry_js.
    unfold satisfied_count. cbn [List.filter]. unfold satisfied at 1, key_present.
    rewrite Hkeys. cbn [fst snd].
    destruct (indexOf field keys) as [i |] eqn:Hi.
    + assert (Hex : existsb (String.eqb field) keys = true)
        by (apply indexOf_found; eauto).
      rewrite Hex, (indexOf_lookup _ _ _ Hi). cbn [default from_option andb]. unfold id.
      destruct ty as [t |]; cbn [truthy strict_eq_string from_option].
      * assert (Ht : String.eqb t "" = false).
        { apply String.eqb_neq. intros ->. apply Hty. reflexivity. }
        rewrite Ht. cbn [negb].
        destruct (String.eqb (typeof (get_own bodyParams field)) t);
          rewrite IH; unfold satisfied_count; cbn [List.length];
          f_equal; f_equal; lia.
      * rewrite IH. unfold satisfied_count. cbn [List.length]. f_equal; f_equal; lia.
    + assert (Hex : existsb (String.eqb field) keys = false).
      { destruct (existsb (String.eqb field) keys) eqn:E; [| reflexivity].
        apply indexOf_found in E as [x Hx]. congruence. }
      rewrite Hex. cbn [andb]. rewrite IH. reflexivity.
Qed.

Lemma satisfied_count_le bodyParams entries :
  (satisfied_count bodyParams entries <= List.length entries)%nat.
Proof. unfold satisfied_count. apply List.filter_length_le. Qed.

Lemma mutating_not_reading m : is_mutating m = true -> is_reading m = false.
Proof.
  unfold is_mutating, is_reading.
  destruct (String.eqb m "post") eqn:E1;
    [apply String.eqb_eq in E1; subst m; reflexivity |].
  destruct (String.eqb m "put") eqn:E2;
    [apply String.eqb_eq in E2; subst m; reflexivity |].
  destruct (String.eqb m "patch") eqn:E3;
    [apply String.eqb_eq in E3; subst m; reflexivity | discriminate].
Qed.

Lemma validate_body_outcome endpoint ctx entries keys s :
  body_required endpoint = Some (entry_js <$> entries) ->
  Forall (fun e : ReqEntry => e.2 <> Some "") entries ->
  Object_keys (ctx_request_body ctx) = Some keys ->
  validate_body endpoint ctx s
  = if (satisfied_count (ctx_request_body ctx) entries <? List.length entries)%nat
    then (Return, {| st_ctx := rejected (st_ctx s); st_world := st_world s |})
    else (Normal tt, s).
Proof.
  intros Hreq Hwf Hkeys. unfold validate_body. rewrite Hreq, Hkeys.
  unfold bind. rewrite (match_required_counts _ _ _ _ _ Hkeys Hwf).
  rewrite length_fmap. simpl.
  destruct (_ <? _)%nat; reflexivity.
Qed.

Lemma try_forward_same_calls_after env endpoint url id s :
  fetched (st_world (try_forward env endpoint url id s).2)
  = fetched (st_world (forward_and_relay env endpoint (toLowerCase (method endpoint)) url s).2).
Proof.
  unfold try_forward.
  apply (try_after_body same_calls);
    [exact same_calls_refl | exact same_calls_trans | | apply clearTimeout_same_calls].
  intros e. apply respects_bind; [exact same_calls_trans | |].
  - apply respects_set_status, same_calls_refl.
  - intros _. apply publish_same_calls.
Qed.

(** C4.  For a post, put or patch whose endpoint declares required body
    entries (each a field with the name of its type, or with null), on a
    request that reaches the check (the upstream URL resolved, the body an
    object): when fewer entries are satisfied than are required, the client
    gets status 403 with the generic message and no upstream call is made;
    when all are satisfied, the body is forwarded, in one call to the
    resolved URL.  So a partly satisfied list never results in a forward. *)
Theorem required_body_check_is_atomic :
  forall (env : Env) (endpoint : Endpoint) (regexpOfPath : string -> option string)
         (s : St) (entries : list ReqEntry) (url : string),
    is_mutating (toLowerCase (method endpoint)) = true ->
    body_required endpoint = Some (entry_js <$> entries) ->
    Forall (fun e : ReqEntry => e.2 <> Some "") entries ->
    is_Some (Object_keys (ctx_request_body (st_ctx s))) ->
    (resolve_path endpoint regexpOfPath s).1 = Normal url ->
    let bodyParams := ctx_request_body (st_ctx s) in
    let r := handler env endpoint regexpOfPath s in
    ((satisfied_count bodyParams entries < List.length entries)%nat ->
       r.1 = Normal tt /\
       ctx_status (st_ctx r.2) = 403 /\
       ctx_body (st_ctx r.2) = Some (JStr "Request missing expected body parameters") /\
       fetched (st_world r.2) = fetched (st_world s)) /\
    (satisfied_count bodyParams entries = List.length entries ->
       fetched (st_world r.2)
       = (fetched (st_world s) ++ [forwarded_call endpoint url bodyParams])%list).
Proof.
  intros env endpoint regexpOfPath s entries url Hmut Hreq Hwf [keys Hkeys] Hurl.
  cbv zeta. rewrite handler_unfold, Hurl.
  pose proof (validate_body_outcome endpoint (st_ctx s) entries keys
                (armed endpoint s) Hreq Hwf Hkeys) as Hval.
  split.
  - intros Hlt. apply Nat.ltb_lt in Hlt. rewrite Hlt in Hval.
    assert (Hfwd : forward_and_relay env endpoint (toLowerCase (method endpoint)) url
                     (armed endpoint s)
                   = (Return, {| st_ctx := rejected (st_ctx s);
                                 st_world := st_world (armed endpoint s) |})).
    { unfold forward_and_relay. rewrite bind_get_ctx, Hmut, bind_assoc.
      cbn [st_ctx armed]. rewrite (bind_Return _ _ _ _ Hval). reflexivity. }
    unfold as_function, try_forward, try_catch_finally. rewrite Hfwd.
    cbn. repeat split; reflexivity.
  - intros Heq. rewrite as_function_state, try_forward_same_calls_after.
    assert (Hge : (satisfied_count (ctx_request_body (st_ctx s)) entries
                   <? List.length entries)%nat = false)
      by (apply Nat.ltb_ge; lia).
    rewrite Hge in Hval.
    unfold forward_and_relay.
    rewrite bind_get_ctx, Hmut, (mutating_not_reading _ Hmut), !bind_assoc.
    cbn [st_ctx armed]. rewrite (bind_Normal _ _ _ _ _ Hval), bind_assoc.
    pose proof (fetch_appends env (forwarded_call endpoint url (ctx_request_body (st_ctx s)))
                  (armed endpoint s)) as Hf.
    unfold forwarded_call in *.
    destruct (fetch env _ (armed endpoint s)) as [[response | | e] sf] eqn:Hfetch;
      cbn [fst snd] in Hf.
    + rewrite (bind_Normal _ _ _ _ _ Hfetch), !bind_ret.
      pose proof (respects_relay same_calls same_calls_refl same_calls_trans
                    env endpoint response sf) as Hr.
      unfold same_calls in Hr. rewrite Hr. exact Hf.
    + rewrite (bind_Return _ _ _ _ Hfetch). exact Hf.
    + rewrite (bind_Throw _ _ _ _ _ Hfetch). exact Hf.
Qed.

Lemma required_body_check_witness :
  let partial := handler open_env signup (exactly "/people")
                   (arriving "/people" alice_only ∅) in
  let complete := handler open_env signup (exactly "/people")
                    (arriving "/people" alice_30 ∅) in
  (partial.1 = Normal tt /\
   ctx_status (st_ctx partial.2) = 403 /\
   ctx_body (st_ctx partial.2) = Some (JStr "Request missing expected body parameters") /\
   fetched (st_world partial.2) = []) /\
  fetched (st_world complete.2)
  = [forwarded_call signup "http://people.internal/people" alice_30].
Proof.
  cbv zeta. split.
  - apply (required_body_check_is_atomic open_env signup (exactly "/people")
             (arriving "/people" alice_only ∅) people_required
             "http://people.internal/people").
    + reflexivity.
    + reflexivity.
    + repeat constructor; discriminate.
    + eexists. reflexivity.
    + reflexivity.
    + vm_compute. lia.
  - apply (required_body_check_is_atomic open_env signup (exactly "/people")
             (arriving "/people" alice_30 ∅) people_required
             "http://people.internal/people").
    + reflexivity.
    + reflexivity.
    + repeat constructor; discriminate.
    + eexists. reflexivity.
    + reflexivity.
    + reflexivity.
Defined.

(** ** The authentication middleware *)

Lemma koa_accepts_range code : koa_accepts code = true <-> 100 <= code <= 999.
Proof. unfold koa_accepts. rewrite andb_true_iff, !Z.leb_le. reflexivity. Qed.

Lemma auth_middleware_fails env endpoint next s a authError ctx' :
  auth endpoint = Some a ->
  enforceAuth env (st_ctx s) endpoint (auth_config env) = (AuthFails authError, ctx') ->
  100 <= ae_status authError <= 999 ->
  auth_middleware env endpoint next s
  = (Normal tt, {| st_ctx := refused authError ctx'; st_world := st_world s |}).
Proof.
  intros Ha He Hrange. apply koa_accepts_range in Hrange.
  unfold auth_middleware, as_function. rewrite Ha.
  unfold bind at 1. unfold call_enforceAuth. rewrite He.
  unfold assign_status. rewrite Hrange. reflexivity.
Qed.

(** A status koa does not accept: the assignment throws inside the [catch]
    block, so the middleware completes by that throw with neither status nor
    body assigned, and the next stage is not run. *)
Lemma auth_middleware_status_refused env endpoint next s a authError ctx' :
  auth endpoint = Some a ->
  enforceAuth env (st_ctx s) endpoint (auth_config env) = (AuthFails authError, ctx') ->
  ~ 100 <= ae_status authError <= 999 ->
  auth_middleware env endpoint next s
  = (Throw (AssertionError "invalid status code"),
     {| st_ctx := ctx'; st_world := st_world s |}).
Proof.
  intros Ha He Hrange.
  assert (Hno : koa_accepts (ae_status authError) = false).
  { destruct (koa_accepts (ae_status authError)) eqn:E; [| reflexivity].
    apply koa_accepts_range in E. contradiction. }
  unfold auth_middleware, as_function. rewrite Ha.
  unfold bind at 1. unfold call_enforceAuth. rewrite He.
  unfold assign_status. rewrite Hno. reflexivity.
Qed.

(** When the authenticator accepts, the middleware hands the context to
    the next stage as the authenticator left it: [tokenPayload] is still
    [null] when the stripping is reached, so nothing is copied into
    [ctx.state]. *)
Lemma auth_middleware_passes env endpoint next s a decoded ctx' :
  auth endpoint = Some a ->
  enforceAuth env (st_ctx s) endpoint (auth_config env) = (AuthPasses decoded, ctx') ->
  auth_middleware env endpoint next s
  = as_function next {| st_ctx := ctx'; st_world := st_world s |}.
Proof.
  intros Ha He. unfold auth_middleware, as_function. rewrite Ha.
  unfold bind at 1. unfold call_enforceAuth. rewrite He.
  destruct (strip_name endpoint); reflexivity.
Qed.

(** C5, as amended.  When the authenticator fails with a message and a
    status that koa accepts (an integer from 100 to 999), the client status
    is exactly that status and the body is that message -- unless the
    message is empty, in which case the body is the empty object; the next
    stage is not run (the outcome is the same whatever the next stage is)
    and the world is untouched, so no upstream call is issued. *)
Theorem auth_failure_short_circuits :
  forall (env : Env) (endpoint : Endpoint) (next : M unit) (s : St)
         (a : Auth) (authError : AuthError) (ctx' : Ctx),
    auth endpoint = Some a ->
    enforceAuth env (st_ctx s) endpoint (auth_config env) = (AuthFails authError, ctx') ->
    100 <= ae_status authError <= 999 ->
    let r := auth_middleware env endpoint next s in
    r.1 = Normal tt /\
    ctx_status (st_ctx r.2) = ae_status authError /\
    (ae_message authError <> "" ->
       ctx_body (st_ctx r.2) = Some (JStr (ae_message authError))) /\
    (ae_message authError = "" -> ctx_body (st_ctx r.2) = Some (JObj [])) /\
    st_world r.2 = st_world s /\
    (forall next' : M unit, auth_middleware env endpoint next' s = r).
Proof.
  intros env endpoint next s a authError ctx' Ha He Hrange. cbv zeta.
  rewrite (auth_middleware_fails _ _ _ _ _ _ _ Ha He Hrange).
  cbn [fst snd st_ctx st_world refused ctx_status ctx_body].
  repeat split.
  - intros Hne. unfold failure_body.
    apply String.eqb_neq in Hne. rewrite Hne. reflexivity.
  - intros Hempty. unfold failure_body. rewrite Hempty. reflexivity.
  - intros next'. apply (auth_middleware_fails _ _ _ _ _ _ _ Ha He Hrange).
Qed.

Lemma auth_failure_witness :
  let r := dispatch forbidden_env own_profile (one_segment_after "/users/")
             (arriving "/users/me" (JObj []) ∅) in
  r.1 = Normal tt /\
  ctx_status (st_ctx r.2) = 403 /\
  ctx_body (st_ctx r.2) = Some (JStr "token expired") /\
  fetched (st_world r.2) = [].
Proof.
  cbv zeta. unfold dispatch.
  destruct (auth_failure_short_circuits forbidden_env own_profile
              (handler forbidden_env own_profile (one_segment_after "/users/"))
              (arriving "/users/me" (JObj []) ∅)
              {| jwt := Some {| stripFromToken := Some "userId"; signTokenData := false |} |}
              {| ae_status := 403; ae_message := "token expired" |}
              (st_ctx (arriving "/users/me" (JObj []) ∅))
              eq_refl eq_refl ltac:(simpl; lia))
    as (Hc & Hs & Hb & _ & Hw & _).
  split; [exact Hc |]. split; [exact Hs |]. split.
  - apply Hb. discriminate.
  - rewrite Hw. reflexivity.
Defined.

(** C5, counterexample to the claim as stated: an authenticator failing with status 401
    and the empty message leaves the client with the body [{}], not with
    that message. *)
Lemma empty_auth_message_not_relayed :
  enforceAuth silent_reject_env (st_ctx (arriving "/users/me" (JObj []) ∅)) own_profile
    (auth_config silent_reject_env)
  = (AuthFails {| ae_status := 401; ae_message := "" |},
     st_ctx (arriving "/users/me" (JObj []) ∅)) /\
  ctx_body (st_ctx (dispatch silent_reject_env own_profile (one_segment_after "/users/")
                      (arriving "/users/me" (JObj []) ∅)).2)
  = Some (JObj []) /\
  ctx_body (st_ctx (dispatch silent_reject_env own_profile (one_segment_after "/users/")
                      (arriving "/users/me" (JObj []) ∅)).2)
  <> Some (JStr "").
Proof.
  split; [reflexivity |]. split; [reflexivity |].
  vm_compute. discriminate.
Qed.

(** C2, the failing input: the endpoint strips [userId], the authenticator
    accepts a token whose payload holds [userId = "42"], and after the
    authentication stage the request state holds no [userId]. *)
Theorem stripped_claim_not_captured :
  strip_name own_profile = Some "userId" /\
  enforceAuth open_env (st_ctx (arriving "/users/me" (JObj []) ∅)) own_profile
    (auth_config open_env)
  = (AuthPasses token_42, st_ctx (arriving "/users/me" (JObj []) ∅)) /\
  get_own token_42 "userId" = JStr "42" /\
  let after_auth := (auth_middleware open_env own_profile (ret tt)
                       (arriving "/users/me" (JObj []) ∅)).2 in
  ctx_state (st_ctx after_auth) !! "userId" = None /\
  ctx_state (st_ctx after_auth) = ∅.
Proof.
  split; [reflexivity |]. split; [reflexivity |]. split; [reflexivity |].
  cbv zeta.
  rewrite (auth_middleware_passes open_env own_profile (ret tt) _
             {| jwt := Some {| stripFromToken := Some "userId"; signTokenData := false |} |}
             token_42 (st_ctx (arriving "/users/me" (JObj []) ∅)) eq_refl eq_refl).
  split; reflexivity.
Qed.

(** ** Path resolution on a state token *)

(** On a template with a state segment the resolved URL is the remote
    location, the state value and then the whole template: the value is
    put in front of the template, the marker stays. *)
Lemma resolve_path_state_token endpoint regexpOfPath s parsedUrl0 m attr :
  regexpOfPath (ctx_request_url (st_ctx s)) = Some parsedUrl0 ->
  includes ":_state_" (path endpoint) = true ->
  reForAttr_exec (path endpoint) = Some (m, attr) ->
  (resolve_path endpoint regexpOfPath s).1
  = Normal (remoteLocation endpoint
            ++ expand_replacement (path endpoint) (ToString (state_get (st_ctx s) attr))
            ++ path endpoint).
Proof.
  intros Hm Hi He. unfold resolve_path. rewrite bind_get_ctx, Hm, Hi, He. reflexivity.
Qed.

(** C1, the failing input: the template [/users/:_state_userId], a request
    path that matches the route and the state holding [userId = "42"].  The
    resolved URL, which the upstream call then uses, is the remote location
    followed by [42/users/:_state_userId], not by [/users/42]. *)
Theorem state_token_not_substituted :
  let s := arriving "/users/me" (JObj []) {["userId" := JStr "42"]} in
  one_segment_after "/users/" (ctx_request_url (st_ctx s)) = Some "/users/me" /\
  state_get (st_ctx s) "userId" = JStr "42" /\
  (resolve_path own_profile (one_segment_after "/users/") s).1
  = Normal "http://users.internal42/users/:_state_userId" /\
  (resolve_path own_profile (one_segment_after "/users/") s).1
  <> Normal (remoteLocation own_profile ++ "/users/42") /\
  fc_url <$> fetched (st_world (handler open_env own_profile
                                  (one_segment_after "/users/") s).2)
  = ["http://users.internal42/users/:_state_userId"].
Proof.
  cbv zeta. split; [reflexivity |]. split; [reflexivity |].
  split; [reflexivity |]. split; [| reflexivity].
  vm_compute. discriminate.
Qed.

(** ** The timer and the upstream call *)

Lemma no_call_is_unsignalled w w' : fetched w' = fetched w -> only_unsignalled_calls w w'.
Proof. intros H. exists []. rewrite H, app_nil_r. split; [reflexivity | constructor]. Qed.

Lemma only_unsignalled_calls_refl w : only_unsignalled_calls w w.
Proof. apply no_call_is_unsignalled. reflexivity. Qed.

Lemma only_unsignalled_calls_trans a b c :
  only_unsignalled_calls a b -> only_unsignalled_calls b c -> only_unsignalled_calls a c.
Proof.
  intros (l1 & H1 & F1) (l2 & H2 & F2). exists (l1 ++ l2)%list. split.
  - rewrite H2, H1. symmetry. apply app_assoc.
  - apply Forall_app. split; assumption.
Qed.

Lemma fetch_only_unsignalled env call :
  fc_signal call = None -> respects only_unsignalled_calls (fetch env call).
Proof.
  intros Hsig s. exists [call]. split.
  - apply fetch_appends.
  - constructor; [exact Hsig | constructor].
Qed.

(** What cancellation takes: a call that listens to the signal of a
    controller is rejected with an AbortError when a timer aborting that
    controller runs out before the call settles. *)
Lemma fetch_listening_is_cancelled env call controller id d s :
  fc_signal call = Some controller ->
  timers (st_world s) !! id = Some {| t_delay := d; t_controller := controller |} ->
  d <= (upstream env call).1 ->
  (fetch env call s).1 = Throw AbortError.
Proof.
  intros Hsig Htimer Hd. unfold fetch, bind, modify_world, get_world. simpl.
  rewrite Hsig. rewrite bool_decide_eq_true_2; [reflexivity |].
  apply elem_of_union_r, elem_of_list_to_set, list_elem_of_fmap.
  exists (id, {| t_delay := d; t_controller := controller |}). split; [reflexivity |].
  apply elem_of_map_to_list, map_lookup_filter_Some. split; [exact Htimer | exact Hd].
Qed.

(** No upstream call of the handler listens to an abort signal: the
    controller the timer aborts is handed to no call. *)
Lemma handler_only_unsignalled env endpoint regexpOfPath :
  respects only_unsignalled_calls (handler env endpoint regexpOfPath).
Proof.
  unfold handler. apply respects_as_function.
  apply respects_bind; [exact only_unsignalled_calls_trans | |].
  { apply respects_resolve_path;
      [exact only_unsignalled_calls_refl | exact only_unsignalled_calls_trans]. }
  intros url. apply respects_bind; [exact only_unsignalled_calls_trans | |].
  { intros s. apply no_call_is_unsignalled. reflexivity. }
  intros controller. apply respects_bind; [exact only_unsignalled_calls_trans | |].
  { intros s. apply no_call_is_unsignalled. reflexivity. }
  intros id. unfold try_forward.
  apply (respects_try _ only_unsignalled_calls_trans).
  - apply respects_forward_and_relay;
      [exact only_unsignalled_calls_refl | exact only_unsignalled_calls_trans |].
    intros call Hsig. apply fetch_only_unsignalled. exact Hsig.
  - intros e. apply respects_bind; [exact only_unsignalled_calls_trans | |].
    + apply respects_set_status, only_unsignalled_calls_refl.
    + intros _. unfold publish.
      apply respects_bind; [exact only_unsignalled_calls_trans | |].
      * apply respects_modify_world. intros w.
        apply no_call_is_unsignalled. reflexivity.
      * intros _. destruct (publish_throws env e).
        -- apply respects_throw, only_unsignalled_calls_refl.
        -- apply respects_ret, only_unsignalled_calls_refl.
  - apply respects_modify_world. intros w.
    apply no_call_is_unsignalled. reflexivity.
Qed.

(** C3, the failing input: the timeout is 300 and the upstream call settles
    after 1000 with status 200.  The timer fires while the handler waits
    (the controller is aborted and the timer is armed no more), but the call
    listens to no signal: it is not cancelled, the client gets the upstream
    status 200 with its payload, and nothing is published to the logger. *)
Theorem timeout_does_not_cancel :
  let s := arriving "/status" (JObj []) ∅ in
  let r := handler slow_env status_page (exactly "/status") s in
  timer_delay status_page = 300 /\
  (forall call, (upstream slow_env call).1 = 1000) /\
  r.1 = Normal tt /\
  ctx_status (st_ctx r.2) = 200 /\
  ctx_body (st_ctx r.2) = Some (JObj [("id", JNum 7)]) /\
  published (st_world r.2) = [] /\
  fetched (st_world r.2)
  = [{| fc_url := "http://status.internal/status"; fc_method := "GET";
        fc_body := None; fc_headers := commonHeaders; fc_signal := None |}] /\
  elements (aborted (st_world r.2)) = [0%nat] /\
  timers (st_world r.2) = ∅.
Proof.
  cbv zeta. split; [reflexivity |]. split; [intros call; reflexivity |].
  split; [reflexivity |]. split; [reflexivity |]. split; [reflexivity |].
  split; [reflexivity |]. split; [reflexivity |]. split; [| reflexivity].
  vm_compute. reflexivity.
Qed.

(** ** The relay of the upstream response *)




(** Signing requested and no such global: evaluating the call throws
    before the status is assigned. *)
Lemma relay_ok_signer_unbound env endpoint response s :
  ok response = true ->
  sign_requested endpoint = true ->
  global_signJwtToken env = None ->
  relay env endpoint response s = (Throw (ReferenceError "signJwtToken"), s).
Proof.
  intros Hok Hsign Hglobal. unfold relay. rewrite Hok, Hsign, Hglobal. reflexivity.
Qed.

(** C6, the failing input: the upstream answers 404 "Not Found" with a body
    of its own and the endpoint sets [forwardError].  The client status is
    404, but no body is assigned: the upstream body is not passed through.
    (With [forwardError] unset the body is the envelope.) *)
Theorem forwardError_passes_no_body :
  let s := arriving "/status" (JObj []) ∅ in
  let r := handler missing_env status_page_forwarding (exactly "/status") s in
  let r' := handler missing_env status_page (exactly "/status") s in
  (forall call, (upstream missing_env call).2 = Resolves not_found) /\
  r_body not_found = JStr "no such page" /\
  r.1 = Normal tt /\
  ctx_status (st_ctx r.2) = 404 /\
  ctx_body (st_ctx r.2) = None /\
  ctx_status (st_ctx r'.2) = 404 /\
  ctx_body (st_ctx r'.2)
  = Some (JObj [("status", JStr "Not Found"); ("text", JStr "no such page")]).
Proof.
  cbv zeta. split; [intros call; reflexivity |].
  repeat (split; [reflexivity |]). reflexivity.
Qed.

(** C7, the failing input: the endpoint sets [auth.jwt.signTokenData], the
    authenticator accepts and the upstream answers 200 with a JSON payload. 
    api.js binds no [signJwtToken]; with none in the global object either,
    the call throws a ReferenceError, which the [catch] turns into status 500
    and a log entry: the client gets neither the upstream status nor a
    body. *)
Theorem signed_relay_fails_unbound :
  let s := arriving "/session" (JObj []) ∅ in
  let r := dispatch open_env session (exactly "/session") s in
  sign_requested session = true /\
  global_signJwtToken open_env = None /\
  (forall call, (upstream open_env call).2
                = Resolves (json_response 200 "OK" (JObj [("id", JNum 7)]))) /\
  r.1 = Normal tt /\
  ctx_status (st_ctx r.2) = 500 /\
  ctx_body (st_ctx r.2) = None /\
  published (st_world r.2) = [ReferenceError "signJwtToken"] /\
  fc_url <$> fetched (st_world r.2) = ["http://sessions.internal/session"].
Proof.
  cbv zeta. split; [reflexivity |]. split; [reflexivity |].
  split; [intros call; reflexivity |].
  repeat (split; [reflexivity |]). reflexivity.
Qed.

(** ** Route registration *)

Lemma mount_compiles env router endpoint :
  compiles env endpoint ->
  exists layer,
    mount env router endpoint = Normal (router ++ [layer])%list /\
    route_key layer = endpoint_key endpoint.
Proof.
  intros [[regexpOfPath Hre] Hverb]. unfold mount. rewrite Hre, Hverb.
  eexists. split; reflexivity.
Qed.

Lemma mount_rejects env router endpoint :
  ~ compiles env endpoint -> exists e, mount env router endpoint = Throw e.
Proof.
  intros Hno. unfold mount.
  destruct (pathToRegexp env (path endpoint)) as [regexpOfPath |] eqn:Hre; [| eauto].
  destruct (router_verb env (toLowerCase (method endpoint))) eqn:Hverb; [| eauto].
  exfalso. apply Hno. split; [rewrite Hre; eauto | exact Hverb].
Qed.

Lemma load_endpoints_compiles env endpoints : forall router,
  Forall (compiles env) endpoints ->
  exists layers,
    load_endpoints env router endpoints = Normal (router ++ layers)%list /\
    route_key <$> layers = endpoint_key <$> endpoints.
Proof.
  induction endpoints as [| endpoint rest IH]; intros router Hall.
  - exists []. rewrite app_nil_r. split; reflexivity.
  - inversion Hall as [| ? ? Hfirst Hrest]; subst.
    destruct (mount_compiles env router endpoint Hfirst) as (layer & Hm & Hk).
    destruct (IH (router ++ [layer])%list Hrest) as (layers & Hl & Hks).
    exists (layer :: layers). simpl. rewrite Hm, Hl. split.
    + rewrite <- app_assoc. reflexivity.
    + cbn [fmap list_fmap] in *. rewrite Hk. f_equal. exact Hks.
Qed.

Lemma load_endpoints_rejects env endpoints : forall router,
  ~ Forall (compiles env) endpoints ->
  exists e, load_endpoints env router endpoints = Throw e.
Proof.
  induction endpoints as [| endpoint rest IH]; intros router Hno.
  - exfalso. apply Hno. constructor.
  - simpl. destruct (mount env router endpoint) as [router' | | e] eqn:Hm.
    + apply IH. intros Hrest. apply Hno. constructor; [| exact Hrest].
      unfold mount in Hm. unfold compiles.
      destruct (pathToRegexp env (path endpoint)); [| discriminate].
      destruct (router_verb env (toLowerCase (method endpoint))); [| discriminate].
      split; eauto.
    + unfold mount in Hm.
      destruct (pathToRegexp env (path endpoint)); [| discriminate].
      destruct (router_verb env (toLowerCase (method endpoint))); discriminate.
    + eauto.
Qed.

(** C8, as amended.  Route compilation checks each definition on its own
    and makes no uniqueness check: when every definition of the list has a
    template that compiles and a method the router knows, the constructor
    registers one route per definition, in order, with the definition's
    (method, path) pair -- whether or not two definitions share that pair;
    it fails exactly when some definition does not compile on its own. *)
Theorem routes_registered_without_uniqueness_check :
  forall (env : Env) (endpoints : list Endpoint),
    (Forall (compiles env) endpoints ->
       exists layers,
         load_endpoints env [] endpoints = Normal layers /\
         route_key <$> layers = endpoint_key <$> endpoints) /\
    (~ Forall (compiles env) endpoints ->
       exists e, load_endpoints env [] endpoints = Throw e).
Proof.
  intros env endpoints. split.
  - intros Hall. destruct (load_endpoints_compiles env endpoints [] Hall)
      as (layers & Hl & Hk).
    exists layers. split; [exact Hl | exact Hk].
  - apply load_endpoints_rejects.
Qed.

(** C8, counterexample to the claim as stated: a list with the definition of
    [GET /status] twice is accepted, and both routes are registered under
    the same (method, path) pair. *)
Lemma duplicate_routes_accepted :
  exists first second,
    load_endpoints open_env [] [status_page; status_page] = Normal [first; second] /\
    endpoint_key status_page = ("get", "/status") /\
    route_key first = ("get", "/status") /\
    route_key second = ("get", "/status").
Proof.
  eexists. eexists. split; [reflexivity |]. repeat split; reflexivity.
Qed.

Lemma duplicate_routes_witness :
  exists layers,
    load_endpoints open_env [] [status_page; status_page] = Normal layers /\
    route_key <$> layers = endpoint_key <$> [status_page; status_page].
Proof.
  apply (routes_registered_without_uniqueness_check open_env [status_page; status_page]).
  repeat constructor; eexists; reflexivity.
Defined.

(** ** The forwarding stage as a whole *)

Lemma as_function_idem (m : M unit) s : as_function (as_function m) s = as_function m s.
Proof. unfold as_function. destruct (m s) as [[a | | e] s1]; reflexivity. Qed.

Lemma reading_not_mutating m : is_reading m = true -> is_mutating m = false.
Proof.
  intros Hr. destruct (is_mutating m) eqn:Hm; [| reflexivity].
  apply mutating_not_reading in Hm. congruence.
Qed.

(** A call that listens to no signal settles as the upstream decides. *)
Lemma fetch_unsignalled env call s :
  fc_signal call = None ->
  fetch env call s = (settled (upstream env call).2, waited env call s).
Proof.
  intros Hsig. unfold fetch, bind, modify_world, get_world. simpl. rewrite Hsig.
  unfold settled, waited. destruct (upstream env call).2; reflexivity.
Qed.

Lemma call_for_unsignalled endpoint url bodyParams :
  fc_signal (call_for endpoint url bodyParams) = None.
Proof. unfold call_for. destruct (is_mutating _); reflexivity. Qed.

(** With no body check the [try] block is the call followed by the
    relay. *)
Lemma forward_unchecked env endpoint url s :
  unchecked endpoint ->
  forward_and_relay env endpoint (toLowerCase (method endpoint)) url s
  = bind (fetch env (call_for endpoint url (ctx_request_body (st_ctx s))))
         (relay env endpoint) s.
Proof.
  intros [Hr | [Hm Hreq]]; unfold forward_and_relay, call_for; rewrite bind_get_ctx.
  - rewrite (reading_not_mutating _ Hr), Hr, bind_ret, bind_assoc.
    unfold bind, reading_call. destruct (fetch env _ s) as [[r | | e] s1]; reflexivity.
  - rewrite Hm, (mutating_not_reading _ Hm), !bind_assoc.
    unfold validate_body. rewrite Hreq, bind_ret, bind_assoc.
    unfold bind, forwarded_call. destruct (fetch env _ s) as [[r | | e] s1]; reflexivity.
Qed.

(** The handler, by the way the [try] block completes. *)
Lemma handler_body_Normal env endpoint regexpOfPath s url s1 :
  (resolve_path endpoint regexpOfPath s).1 = Normal url ->
  forward_and_relay env endpoint (toLowerCase (method endpoint)) url (armed endpoint s)
  = (Normal tt, s1) ->
  handler env endpoint regexpOfPath s
  = (Normal tt, disarmed (next_timer (st_world s)) s1).
Proof.
  intros Hurl Hbody. rewrite handler_unfold, Hurl.
  unfold as_function, try_forward, try_catch_finally. rewrite Hbody. reflexivity.
Qed.

Lemma handler_body_Return env endpoint regexpOfPath s url s1 :
  (resolve_path endpoint regexpOfPath s).1 = Normal url ->
  forward_and_relay env endpoint (toLowerCase (method endpoint)) url (armed endpoint s)
  = (Return, s1) ->
  handler env endpoint regexpOfPath s
  = (Normal tt, disarmed (next_timer (st_world s)) s1).
Proof.
  intros Hurl Hbody. rewrite handler_unfold, Hurl.
  unfold as_function, try_forward, try_catch_finally. rewrite Hbody. reflexivity.
Qed.

Lemma handler_body_Throw env endpoint regexpOfPath s url e s1 :
  (resolve_path endpoint regexpOfPath s).1 = Normal url ->
  forward_and_relay env endpoint (toLowerCase (method endpoint)) url (armed endpoint s)
  = (Throw e, s1) ->
  handler env endpoint regexpOfPath s
  = (catch_completion env e, disarmed (next_timer (st_world s)) (logged e s1)).
Proof.
  intros Hurl Hbody. rewrite handler_unfold, Hurl.
  unfold as_function, try_forward, try_catch_finally. rewrite Hbody.
  unfold bind, set_status, modify_ctx, publish, modify_world, catch_completion. simpl.
  destruct (publish_throws env e); reflexivity.
Qed.

Lemma same_log_refl w : same_log w w.
Proof. reflexivity. Qed.

Lemma same_log_trans a b c : same_log a b -> same_log b c -> same_log a c.
Proof. unfold same_log. congruence. Qed.

Lemma fetch_same_log env call : respects same_log (fetch env call).
Proof.
  intros s. unfold same_log, fetch, bind, modify_world, get_world. simpl.
  destruct (fc_signal call) as [controller |];
    [destruct (bool_decide _); [reflexivity |] |];
    destruct (upstream env call).2; reflexivity.
Qed.

(** The [try] block itself hands nothing to the logger. *)
Lemma forward_and_relay_same_log env endpoint method' url :
  respects same_log (forward_and_relay env endpoint method' url).
Proof.
  apply respects_forward_and_relay;
    [exact same_log_refl | exact same_log_trans |].
  intros call _. apply fetch_same_log.
Qed.

(** The [try] block issues no call, or one call to the given URL with the
    endpoint's method, the JSON content type and no signal. *)
Lemma forward_and_relay_calls env endpoint url s :
  let w' := st_world (forward_and_relay env endpoint (toLowerCase (method endpoint)) url s).2 in
  fetched w' = fetched (st_world s) \/
  exists body,
    fetched w' = (fetched (st_world s)
                  ++ [{| fc_url := url; fc_method := method endpoint; fc_body := body;
                         fc_headers := commonHeaders; fc_signal := None |}])%list.
Proof.
  cbv zeta. unfold forward_and_relay. rewrite bind_get_ctx.
  destruct (is_mutating (toLowerCase (method endpoint))) eqn:Hm.
  - rewrite (mutating_not_reading _ Hm), !bind_assoc.
    pose proof (respects_validate_body same_calls same_calls_refl same_calls_trans
                  endpoint (st_ctx s) s) as Hv.
    destruct (validate_body endpoint (st_ctx s) s) as [[u | | e] sv] eqn:Hval;
      unfold same_calls in Hv; simpl in Hv.
    + rewrite (bind_Normal _ _ _ _ _ Hval), bind_assoc. right.
      exists (Some (ctx_request_body (st_ctx s))).
      match goal with |- context [fetch env ?c] => pose proof (fetch_appends env c sv) as Hf;
        destruct (fetch env c sv) as [[r | | e] sf] eqn:Hfetch end; simpl in Hf.
      * rewrite (bind_Normal _ _ _ _ _ Hfetch), !bind_ret.
        pose proof (respects_relay same_calls same_calls_refl same_calls_trans
                      env endpoint r sf) as Hr.
        unfold same_calls in Hr. rewrite Hr, Hf, Hv. reflexivity.
      * rewrite (bind_Return _ _ _ _ Hfetch). simpl. rewrite Hf, Hv. reflexivity.
      * rewrite (bind_Throw _ _ _ _ _ Hfetch). simpl. rewrite Hf, Hv. reflexivity.
    + rewrite (bind_Return _ _ _ _ Hval). left. exact Hv.
    + rewrite (bind_Throw _ _ _ _ _ Hval). left. exact Hv.
  - rewrite bind_ret. destruct (is_reading (toLowerCase (method endpoint))) eqn:Hr.
    + rewrite bind_assoc. right. exists None.
      match goal with |- context [fetch env ?c] => pose proof (fetch_appends env c s) as Hf;
        destruct (fetch env c s) as [[r | | e] sf] eqn:Hfetch end; simpl in Hf.
      * rewrite (bind_Normal _ _ _ _ _ Hfetch), !bind_ret.
        pose proof (respects_relay same_calls same_calls_refl same_calls_trans
                      env endpoint r sf) as Hrel.
        unfold same_calls in Hrel. rewrite Hrel, Hf. reflexivity.
      * rewrite (bind_Return _ _ _ _ Hfetch). simpl. exact Hf.
      * rewrite (bind_Throw _ _ _ _ _ Hfetch). simpl. exact Hf.
    + rewrite bind_ret. left. reflexivity.
Qed.

Lemma resolve_path_plain endpoint regexpOfPath s :
  includes ":_state_" (path endpoint) = false ->
  (resolve_path endpoint regexpOfPath s).1
  = Normal (remoteLocation endpoint
            ++ default (remotePath endpoint) (regexpOfPath (ctx_request_url (st_ctx s)))).
Proof.
  intros Hplain. unfold resolve_path. rewrite bind_get_ctx.
  destruct (regexpOfPath _); [rewrite Hplain |]; reflexivity.
Qed.

Lemma call_then_relay_calls env endpoint call s :
  fetched (st_world (bind (fetch env call) (relay env endpoint) s).2)
  = (fetched (st_world s) ++ [call])%list.
Proof.
  pose proof (fetch_appends env call s) as Hf.
  destruct (fetch env call s) as [[r | | e] sf] eqn:Hfetch; simpl in Hf.
  - rewrite (bind_Normal _ _ _ _ _ Hfetch).
    pose proof (respects_relay same_calls same_calls_refl same_calls_trans
                  env endpoint r sf) as Hr.
    unfold same_calls in Hr. rewrite Hr. exact Hf.
  - rewrite (bind_Return _ _ _ _ Hfetch). exact Hf.
  - rewrite (bind_Throw _ _ _ _ _ Hfetch). exact Hf.
Qed.

(** X1.  A request makes at most one upstream call: the handler leaves the
    list of calls as it found it, or adds one call, which goes to the
    resolved URL with the endpoint's method as configured, the JSON content
    type and no abort signal. *)
Theorem handler_issues_at_most_one_call :
  forall (env : Env) (endpoint : Endpoint) (regexpOfPath : string -> option string) (s : St),
    let w' := st_world (handler env endpoint regexpOfPath s).2 in
    fetched w' = fetched (st_world s) \/
    exists url body,
      (resolve_path endpoint regexpOfPath s).1 = Normal url /\
      fetched w' = (fetched (st_world s)
                    ++ [{| fc_url := url; fc_method := method endpoint; fc_body := body;
                           fc_headers := commonHeaders; fc_signal := None |}])%list.
Proof.
  intros env endpoint regexpOfPath s. cbv zeta. rewrite handler_unfold.
  destruct (resolve_path endpoint regexpOfPath s).1 as [url | | e] eqn:Hurl;
    [| left; reflexivity | left; reflexivity].
  rewrite as_function_state, try_forward_same_calls_after.
  destruct (forward_and_relay_calls env endpoint url (armed endpoint s)) as [H | [body H]].
  - left. exact H.
  - right. exists url, body. split; [reflexivity | exact H].
Qed.

(** X2.  A get or delete, or a post, put or patch with no required list, on
    a template without a state token is always forwarded, in exactly one
    call: to the remote location followed by the matched request path -- or
    by the static remote path when the request URL does not match the
    compiled expression -- with the request body for a post, put or patch
    and with no body for a get or delete. *)
Theorem unchecked_request_is_forwarded_once :
  forall (env : Env) (endpoint : Endpoint) (regexpOfPath : string -> option string) (s : St),
    includes ":_state_" (path endpoint) = false ->
    unchecked endpoint ->
    fetched (st_world (handler env endpoint regexpOfPath s).2)
    = (fetched (st_world s)
       ++ [call_for endpoint
             (remoteLocation endpoint
              ++ default (remotePath endpoint) (regexpOfPath (ctx_request_url (st_ctx s))))
             (ctx_request_body (st_ctx s))])%list.
Proof.
  intros env endpoint regexpOfPath s Hplain Hun.
  rewrite handler_unfold, (resolve_path_plain _ _ _ Hplain).
  rewrite as_function_state, try_forward_same_calls_after.
  rewrite (forward_unchecked _ _ _ _ Hun), call_then_relay_calls. reflexivity.
Qed.

Lemma unchecked_request_witness :
  fetched (st_world (handler open_env notes (exactly "/notes")
                       (arriving "/notes?draft=1" alice_only ∅)).2)
  = [forwarded_call notes "http://notes.internal/notes" alice_only].
Proof.
  apply (unchecked_request_is_forwarded_once open_env notes (exactly "/notes")
           (arriving "/notes?draft=1" alice_only ∅)).
  - reflexivity.
  - right. split; reflexivity.
Defined.

(** X3.  An endpoint whose method is none of get, delete, post, put and
    patch is never forwarded: once the URL is resolved, no upstream call is
    made, [response] is still undefined when its [ok] is read, and the
    TypeError is caught -- the client gets status 500, no body is assigned
    and the error is handed to the logger. *)
Theorem unsupported_method_fails_with_500 :
  forall (env : Env) (endpoint : Endpoint) (regexpOfPath : string -> option string)
         (s : St) (url : string),
    is_mutating (toLowerCase (method endpoint)) = false ->
    is_reading (toLowerCase (method endpoint)) = false ->
    (resolve_path endpoint regexpOfPath s).1 = Normal url ->
    let undefined_response :=
      TypeError "Cannot read properties of undefined (reading 'ok')" in
    let r := handler env endpoint regexpOfPath s in
    r.1 = catch_completion env undefined_response /\
    ctx_status (st_ctx r.2) = 500 /\
    ctx_body (st_ctx r.2) = ctx_body (st_ctx s) /\
    fetched (st_world r.2) = fetched (st_world s) /\
    published (st_world r.2) = (published (st_world s) ++ [undefined_response])%list.
Proof.
  intros env endpoint regexpOfPath s url Hm Hr Hurl. cbv zeta.
  rewrite (handler_body_Throw env endpoint regexpOfPath s url
             (TypeError "Cannot read properties of undefined (reading 'ok')")
             (armed endpoint s) Hurl).
  - repeat split.
  - unfold forward_and_relay. rewrite bind_get_ctx, Hm, Hr, !bind_ret. reflexivity.
Qed.

Lemma unsupported_method_witness :
  let r := handler open_env status_head (exactly "/status")
             (arriving "/status" (JObj []) ∅) in
  r.1 = Normal tt /\
  ctx_status (st_ctx r.2) = 500 /\
  ctx_body (st_ctx r.2) = None /\
  fetched (st_world r.2) = [] /\
  published (st_world r.2)
  = [TypeError "Cannot read properties of undefined (reading 'ok')"].
Proof.
  cbv zeta.
  apply (unsupported_method_fails_with_500 open_env status_head (exactly "/status")
           (arriving "/status" (JObj []) ∅) "http://status.internal/status");
    reflexivity.
Defined.

(** The handler when the call of an unchecked request is rejected. *)
Lemma handler_call_rejected env endpoint regexpOfPath s url e :
  unchecked endpoint ->
  (resolve_path endpoint regexpOfPath s).1 = Normal url ->
  (upstream env (call_for endpoint url (ctx_request_body (st_ctx s)))).2 = Rejects e ->
  handler env endpoint regexpOfPath s
  = (catch_completion env e,
     disarmed (next_timer (st_world s))
       (logged e (waited env (call_for endpoint url (ctx_request_body (st_ctx s)))
                    (armed endpoint s)))).
Proof.
  intros Hun Hurl Hup.
  apply (handler_body_Throw env endpoint regexpOfPath s url e _ Hurl).
  rewrite (forward_unchecked _ _ _ _ Hun). cbn [st_ctx armed].
  apply bind_Throw. rewrite (fetch_unsignalled _ _ _ (call_for_unsignalled _ _ _)), Hup.
  reflexivity.
Qed.


(** X4.  A transport failure is contained and logged: when the upstream
    call of a forwarded request is rejected with an error, the client gets
    status 500, no body is assigned, exactly that error is handed to the
    logger, and the handler completes normally unless the logger itself
    throws. *)
Theorem transport_failure_is_logged_as_500 :
  forall (env : Env) (endpoint : Endpoint) (regexpOfPath : string -> option string)
         (s : St) (url : string) (e : JsError),
    unchecked endpoint ->
    (resolve_path endpoint regexpOfPath s).1 = Normal url ->
    (upstream env (call_for endpoint url (ctx_request_body (st_ctx s)))).2 = Rejects e ->
    let r := handler env endpoint regexpOfPath s in
    r.1 = catch_completion env e /\
    ctx_status (st_ctx r.2) = 500 /\
    ctx_body (st_ctx r.2) = ctx_body (st_ctx s) /\
    published (st_world r.2) = (published (st_world s) ++ [e])%list.
Proof.
  intros env endpoint regexpOfPath s url e Hun Hurl Hup. cbv zeta.
  rewrite (handler_call_rejected _ _ _ _ _ _ Hun Hurl Hup). repeat split.
Qed.

Lemma transport_failure_witness :
  let r := handler unreachable_env status_page (exactly "/status")
             (arriving "/status" (JObj []) ∅) in
  r.1 = Normal tt /\
  ctx_status (st_ctx r.2) = 500 /\
  ctx_body (st_ctx r.2) = None /\
  published (st_world r.2) = [refused_connection].
Proof.
  cbv zeta.
  apply (transport_failure_is_logged_as_500 unreachable_env status_page (exactly "/status")
           (arriving "/status" (JObj []) ∅) "http://status.internal/status"
           refused_connection).
  - left. reflexivity.
  - reflexivity.
  - reflexivity.
Defined.







(** X8.  The handler hands at most one error to the logger per request,
    and only together with status 500: either the log is as it was, or it
    has one more entry and the client status is 500. *)
Theorem log_entry_implies_500 :
  forall (env : Env) (endpoint : Endpoint) (regexpOfPath : string -> option string) (s : St),
    let r := handler env endpoint regexpOfPath s in
    published (st_world r.2) = published (st_world s) \/
    exists e,
      published (st_world r.2) = (published (st_world s) ++ [e])%list /\
      ctx_status (st_ctx r.2) = 500.
Proof.
  intros env endpoint regexpOfPath s. cbv zeta.
  destruct (resolve_path endpoint regexpOfPath s).1 as [url | | e] eqn:Hurl.
  - pose proof (forward_and_relay_same_log env endpoint (toLowerCase (method endpoint))
                  url (armed endpoint s)) as Hlog.
    unfold same_log in Hlog.
    destruct (forward_and_relay env endpoint (toLowerCase (method endpoint)) url
                (armed endpoint s)) as [[u | | e] s1] eqn:Hbody; simpl in Hlog.
    + destruct u. rewrite (handler_body_Normal _ _ _ _ _ _ Hurl Hbody). left. exact Hlog.
    + rewrite (handler_body_Return _ _ _ _ _ _ Hurl Hbody). left. exact Hlog.
    + rewrite (handler_body_Throw _ _ _ _ _ _ _ Hurl Hbody). right. exists e.
      split; [| reflexivity]. simpl. rewrite Hlog. reflexivity.
  - rewrite handler_unfold, Hurl. left. reflexivity.
  - rewrite handler_unfold, Hurl. left. reflexivity.
Qed.

(** X9.  Failures of the forwarding stage are contained: once the upstream
    URL is resolved, and with a logger that does not throw, the handler
    completes normally whatever the body check, the upstream and the relay
    do -- no error of the stage escapes it. *)
Theorem forwarding_failures_are_contained :
  forall (env : Env) (endpoint : Endpoint) (regexpOfPath : string -> option string)
         (s : St) (url : string),
    (resolve_path endpoint regexpOfPath s).1 = Normal url ->
    (forall e, publish_throws env e = None) ->
    (handler env endpoint regexpOfPath s).1 = Normal tt.
Proof.
  intros env endpoint regexpOfPath s url Hurl Hquiet.
  destruct (forward_and_relay env endpoint (toLowerCase (method endpoint)) url
              (armed endpoint s)) as [[u | | e] s1] eqn:Hbody.
  - destruct u. rewrite (handler_body_Normal _ _ _ _ _ _ Hurl Hbody). reflexivity.
  - rewrite (handler_body_Return _ _ _ _ _ _ Hurl Hbody). reflexivity.
  - rewrite (handler_body_Throw _ _ _ _ _ _ _ Hurl Hbody). simpl.
    unfold catch_completion. rewrite Hquiet. reflexivity.
Qed.

Lemma forwarding_failures_witness :
  (handler unreachable_env signup (exactly "/people")
     (arriving "/people" alice_30 ∅)).1 = Normal tt.
Proof.
  apply (forwarding_failures_are_contained unreachable_env signup (exactly "/people")
           (arriving "/people" alice_30 ∅) "http://people.internal/people").
  - reflexivity.
  - intros e. reflexivity.
Defined.

Lemma Object_keys_nullish v : Object_keys v = None <-> nullish v = true.
Proof.
  destruct v; unfold Object_keys; simpl; split; intros H;
    (reflexivity || discriminate H).
Qed.

(** With no key in the body the loop matches nothing: it ends with the
    count it started from, or throws at the first entry that is null or
    undefined. *)
Lemma match_required_no_keys bodyParams requiredParams n s :
  match_required bodyParams [] requiredParams n s
  = if existsb nullish requiredParams
    then (Throw (TypeError "Cannot convert undefined or null to object"), s)
    else (Normal n, s).
Proof.
  induction requiredParams as [| entry rest IH]; simpl.
  - reflexivity.
  - destruct (Object_keys entry) as [entryKeys |] eqn:Hkeys.
    + assert (Hn : nullish entry = false).
      { destruct (nullish entry) eqn:E; [| reflexivity].
        apply Object_keys_nullish in E. congruence. }
      rewrite Hn. simpl. destruct (head entryKeys); exact IH.
    + apply Object_keys_nullish in Hkeys. rewrite Hkeys. reflexivity.
Qed.

(** X16.  An empty body never passes a required list: for a post, put or
    patch whose endpoint declares a non-empty [body.required] -- whatever
    the shape of its entries -- a request whose body is an object with no
    key is not forwarded.  When no entry of the list is null or undefined
    the client gets status 403 with the generic message and nothing is
    logged; when one is, reading its keys throws and the client gets status
    500, with that TypeError handed to the logger. *)
Theorem empty_body_is_never_forwarded :
  forall (env : Env) (endpoint : Endpoint) (regexpOfPath : string -> option string)
         (s : St) (requiredParams : list JsValue) (url : string),
    is_mutating (toLowerCase (method endpoint)) = true ->
    body_required endpoint = Some requiredParams ->
    requiredParams <> [] ->
    Object_keys (ctx_request_body (st_ctx s)) = Some [] ->
    (resolve_path endpoint regexpOfPath s).1 = Normal url ->
    let r := handler env endpoint regexpOfPath s in
    fetched (st_world r.2) = fetched (st_world s) /\
    (existsb nullish requiredParams = false ->
       r.1 = Normal tt /\
       ctx_status (st_ctx r.2) = 403 /\
       ctx_body (st_ctx r.2) = Some (JStr "Request missing expected body parameters") /\
       published (st_world r.2) = published (st_world s)) /\
    (existsb nullish requiredParams = true ->
       ctx_status (st_ctx r.2) = 500 /\
       ctx_body (st_ctx r.2) = ctx_body (st_ctx s) /\
       published (st_world r.2)
       = (published (st_world s)
          ++ [TypeError "Cannot convert undefined or null to object"])%list).
Proof.
  intros env endpoint regexpOfPath s requiredParams url Hm Hreq Hne Hkeys Hurl. cbv zeta.
  assert (Hbody : forward_and_relay env endpoint (toLowerCase (method endpoint)) url
                    (armed endpoint s)
                  = if existsb nullish requiredParams
                    then (Throw (TypeError "Cannot convert undefined or null to object"),
                          armed endpoint s)
                    else (Return, {| st_ctx := rejected (st_ctx s);
                                     st_world := st_world (armed endpoint s) |})).
  { unfold forward_and_relay. rewrite bind_get_ctx, Hm, bind_assoc. cbn [st_ctx armed].
    unfold validate_body. rewrite Hreq, Hkeys, bind_assoc.
    pose proof (match_required_no_keys (ctx_request_body (st_ctx s)) requiredParams 0%nat
                  (armed endpoint s)) as Hcount.
    destruct (existsb nullish requiredParams).
    - rewrite (bind_Throw _ _ _ _ _ Hcount). reflexivity.
    - rewrite (bind_Normal _ _ _ _ _ Hcount).
      destruct requiredParams as [| entry rest]; [congruence |]. reflexivity. }
  destruct (existsb nullish requiredParams).
  - rewrite (handler_body_Throw _ _ _ _ _ _ _ Hurl Hbody).
    split; [reflexivity |]. split; [discriminate |]. intros _. repeat split.
  - rewrite (handler_body_Return _ _ _ _ _ _ Hurl Hbody).
    split; [reflexivity |]. split; [| discriminate]. intros _. repeat split.
Qed.

Lemma empty_body_witness :
  let declared := handler open_env signup (exactly "/people")
                    (arriving "/people" (JObj []) ∅) in
  let null_entry := handler open_env signup_null_entry (exactly "/people")
                      (arriving "/people" (JObj []) ∅) in
  (fetched (st_world declared.2) = [] /\
   ctx_status (st_ctx declared.2) = 403 /\
   published (st_world declared.2) = []) /\
  (fetched (st_world null_entry.2) = [] /\
   ctx_status (st_ctx null_entry.2) = 500 /\
   published (st_world null_entry.2)
   = [TypeError "Cannot convert undefined or null to object"]).
Proof.
  cbv zeta. split.
  - destruct (empty_body_is_never_forwarded open_env signup (exactly "/people")
                (arriving "/people" (JObj []) ∅) (entry_js <$> people_required)
                "http://people.internal/people")
      as (Hcalls & Hdeclared & _).
    + reflexivity.
    + reflexivity.
    + discriminate.
    + reflexivity.
    + reflexivity.
    + destruct (Hdeclared eq_refl) as (_ & Hstatus & _ & Hlog).
      split; [exact Hcalls |]. split; [exact Hstatus | exact Hlog].
  - destruct (empty_body_is_never_forwarded open_env signup_null_entry (exactly "/people")
                (arriving "/people" (JObj []) ∅) [JObj [("name", JStr "string")]; JNull]
                "http://people.internal/people")
      as (Hcalls & _ & Hnull).
    + reflexivity.
    + reflexivity.
    + discriminate.
    + reflexivity.
    + reflexivity.
    + destruct (Hnull eq_refl) as (Hstatus & _ & Hlog).
      split; [exact Hcalls |]. split; [exact Hstatus | exact Hlog].
Defined.

(** ** Which state variable a template names *)

Lemma reForAttr_exec_cons c t :
  reForAttr_exec (String c t)
  = match strip_prefix state_marker (String c t) with
    | Some rest => match take_word rest with
                   | EmptyString => reForAttr_exec t
                   | String d w => Some (state_marker ++ String d w, String d w)
                   end
    | None => reForAttr_exec t
    end.
Proof.
  unfold reForAttr_exec at 1. fold reForAttr_exec.
  destruct (strip_prefix state_marker (String c t)) as [rest |]; [| reflexivity].
  destruct (take_word rest); reflexivity.
Qed.

Lemma take_word_split_max s : exists post, s = take_word s ++ post /\ word_ends post.
Proof.
  unfold word_ends. induction s as [| c s (post & IH & Hend)]; simpl.
  - exists "". split; reflexivity.
  - destruct (is_word_char c) eqn:E.
    + exists post. rewrite append_cons. split; [f_equal; exact IH | exact Hend].
    + exists (String c s). split; [reflexivity |]. simpl. rewrite E. reflexivity.
Qed.

(** X10.  The state variable read for a template is named by the leftmost
    segment [/users/:_state_<word>] only, and by the whole of its word: the
    match is the marker followed by the name, the name is a non-empty word
    that the text after it does not continue, and no segment of that form
    starts earlier in the template.  Later segments are not looked at. *)
Theorem state_attribute_is_leftmost_maximal_word :
  forall (template m attr : string),
    reForAttr_exec template = Some (m, attr) ->
    m = state_marker ++ attr /\ attr <> "" /\ all_word attr = true /\
    exists pre post,
      template = pre ++ m ++ post /\
      word_ends post /\
      forall pre' w' post',
        template = pre' ++ state_marker ++ w' ++ post' ->
        w' <> "" -> all_word w' = true ->
        (String.length pre <= String.length pre')%nat.
Proof.
  induction template as [| c template IH]; intros m attr H.
  - simpl in H. discriminate.
  - rewrite reForAttr_exec_cons in H.
    assert (Hrec : reForAttr_exec template = Some (m, attr) ->
                   (forall w' post', String c template = state_marker ++ w' ++ post' ->
                                     w' <> "" -> all_word w' = true -> False) ->
                   m = state_marker ++ attr /\ attr <> "" /\ all_word attr = true /\
                   exists pre post,
                     String c template = pre ++ m ++ post /\
                     word_ends post /\
                     forall pre' w' post',
                       String c template = pre' ++ state_marker ++ w' ++ post' ->
                       w' <> "" -> all_word w' = true ->
                       (String.length pre <= String.length pre')%nat).
    { intros Hex Hnot. destruct (IH m attr Hex) as (Hm & Hne & Hall & pre & post & Ht & Hend & Hleft).
      split; [exact Hm |]. split; [exact Hne |]. split; [exact Hall |].
      exists (String c pre), post. split; [rewrite append_cons, <- Ht; reflexivity |].
      split; [exact Hend |].
      intros pre' w' post' Ht' Hne' Hall'. destruct pre' as [| c' pre''].
      - exfalso. rewrite append_nil_l in Ht'. exact (Hnot w' post' Ht' Hne' Hall').
      - rewrite append_cons in Ht'. inversion Ht'; subst c'.
        simpl. apply le_n_S. eapply Hleft; eauto. }
    destruct (strip_prefix state_marker (String c template)) as [rest |] eqn:Hp.
    + destruct (take_word rest) as [| d w] eqn:Hw.
      * apply Hrec; [exact H |].
        intros w' post' Ht' Hne' Hall'. rewrite Ht', strip_prefix_app in Hp.
        inversion Hp; subst rest.
        exact (take_word_app_nonempty w' post' Hne' Hall' Hw).
      * inversion H; subst m attr. rewrite <- Hw.
        split; [reflexivity |]. split; [rewrite Hw; discriminate |].
        split; [apply take_word_all_word |].
        destruct (take_word_split_max rest) as (post & Hrest & Hend).
        exists "", post. split.
        -- rewrite append_nil_l, append_assoc, <- Hrest.
           apply strip_prefix_Some. exact Hp.
        -- split; [exact Hend |]. intros. simpl. lia.
    + apply Hrec; [exact H |].
      intros w' post' Ht' _ _. rewrite Ht', strip_prefix_app in Hp. discriminate.
Qed.

Lemma state_attribute_witness :
  exists pre post,
    "/v1/users/:_state_tenant/users/:_state_userId" = pre ++ "/users/:_state_tenant" ++ post /\
    word_ends post /\
    forall pre' w' post',
      "/v1/users/:_state_tenant/users/:_state_userId"
      = pre' ++ state_marker ++ w' ++ post' ->
      w' <> "" -> all_word w' = true ->
      (String.length pre <= String.length pre')%nat.
Proof.
  apply (state_attribute_is_leftmost_maximal_word
           "/v1/users/:_state_tenant/users/:_state_userId"
           "/users/:_state_tenant" "tenant").
  reflexivity.
Defined.

(** ** The middleware and the handler together *)

(** X11.  The handler runs on what the authentication stage leaves: for an
    endpoint without [auth] the authenticator is not consulted and the
    request is the handler's; when the authenticator accepts, the request's
    outcome is the handler's outcome on the context as the authenticator
    left it, in the same world. *)
Theorem accepted_request_reaches_handler :
  forall (env : Env) (endpoint : Endpoint) (regexpOfPath : string -> option string) (s : St),
    (auth endpoint = None ->
     dispatch env endpoint regexpOfPath s = handler env endpoint regexpOfPath s) /\
    (forall a decoded ctx',
       auth endpoint = Some a ->
       enforceAuth env (st_ctx s) endpoint (auth_config env) = (AuthPasses decoded, ctx') ->
       dispatch env endpoint regexpOfPath s
       = handler env endpoint regexpOfPath {| st_ctx := ctx'; st_world := st_world s |}).
Proof.
  intros env endpoint regexpOfPath s. split.
  - intros Hnone. unfold dispatch, auth_middleware. rewrite Hnone.
    unfold handler. apply as_function_idem.
  - intros a decoded ctx' Ha He. unfold dispatch.
    rewrite (auth_middleware_passes _ _ _ _ _ _ _ Ha He).
    unfold handler. apply as_function_idem.
Qed.

Lemma accepted_request_witness :
  dispatch open_env own_profile (one_segment_after "/users/")
    (arriving "/users/me" (JObj []) ∅)
  = handler open_env own_profile (one_segment_after "/users/")
      (arriving "/users/me" (JObj []) ∅).
Proof.
  apply (proj2 (accepted_request_reaches_handler open_env own_profile
                  (one_segment_after "/users/") (arriving "/users/me" (JObj []) ∅))
           {| jwt := Some {| stripFromToken := Some "userId"; signTokenData := false |} |}
           token_42 (st_ctx (arriving "/users/me" (JObj []) ∅)));
    reflexivity.
Defined.

(** ** The built-in routes *)

(** X12.  The token-validation route answers a missing token and nothing
    else: for a request body that is an object, when the body holds no
    [token] or a falsy one the client gets status 401 with the empty string
    as body; when it holds a truthy token the handler leaves the context
    exactly as it found it -- the token is not validated and no response is
    set.  Either way the handler completes normally and touches nothing
    outside the context. *)
Theorem validate_route_answers_only_missing_token :
  forall (s : St),
    is_Some (own_entries (ctx_request_body (st_ctx s))) ->
    let token := get_own (ctx_request_body (st_ctx s)) "token" in
    let r := validate_handler s in
    r.1 = Normal tt /\
    st_world r.2 = st_world s /\
    (truthy token = false ->
       ctx_status (st_ctx r.2) = 401 /\ ctx_body (st_ctx r.2) = Some (JStr "") /\
       ctx_state (st_ctx r.2) = ctx_state (st_ctx s)) /\
    (truthy token = true -> r.2 = s).
Proof.
  intros s [entries Hbody]. cbv zeta.
  unfold validate_handler, as_function. rewrite bind_get_ctx, Hbody.
  destruct (truthy (get_own (ctx_request_body (st_ctx s)) "token")); simpl.
  - split; [reflexivity |]. split; [reflexivity |]. split; [discriminate |].
    intros _. reflexivity.
  - split; [reflexivity |]. split; [reflexivity |]. split; [| discriminate].
    intros _. repeat split.
Qed.

Lemma validate_route_witness :
  let missing := validate_handler (arriving "/validate" (JObj []) ∅) in
  let present := validate_handler
                   (arriving "/validate" (JObj [("token", JStr "eyJhbGciOi")]) ∅) in
  (ctx_status (st_ctx missing.2) = 401 /\ ctx_body (st_ctx missing.2) = Some (JStr "")) /\
  present.2 = arriving "/validate" (JObj [("token", JStr "eyJhbGciOi")]) ∅.
Proof.
  cbv zeta. split.
  - destruct (validate_route_answers_only_missing_token
                (arriving "/validate" (JObj []) ∅)) as (_ & _ & Hmissing & _).
    + eexists. reflexivity.
    + destruct (Hmissing eq_refl) as (Hs & Hb & _). split; [exact Hs | exact Hb].
  - destruct (validate_route_answers_only_missing_token
                (arriving "/validate" (JObj [("token", JStr "eyJhbGciOi")]) ∅))
      as (_ & _ & _ & Hpresent).
    + eexists. reflexivity.
    + apply Hpresent. reflexivity.
Defined.

Lemma decimal_is_not_code n : decimal n <> "code".
Proof.
  unfold decimal. destruct (Z.to_int n) as [u | u]; destruct u; simpl; discriminate.
Qed.

Lemma assoc_combine_none (k : string) keys (xs : list JsValue) :
  Forall (fun k' => k' <> k) keys -> assoc k (combine keys xs) = None.
Proof.
  intros Hall. revert xs. induction Hall as [| k' keys Hk _ IH]; intros xs.
  - reflexivity.
  - destruct xs as [| x xs]; [reflexivity |]. simpl.
    destruct (String.eqb_spec k k') as [-> |]; [congruence | apply IH].
Qed.

(** A string has no property [code]. *)
Lemma string_has_no_code q : get_own (JStr q) "code" = JUndefined.
Proof.
  unfold get_own, own_entries, indexed. rewrite assoc_combine_none; [reflexivity |].
  apply List.Forall_forall. intros k Hin. apply in_map_iff in Hin as (i & <- & _).
  apply decimal_is_not_code.
Qed.

Lemma bind_after (R : World -> World -> Prop) {A B} (m : M A) (k : A -> M B) s :
  (forall w, R w w) -> (forall a, respects R (k a)) ->
  R (st_world (m s).2) (st_world (bind m k s).2).
Proof.
  intros Rrefl Hk. unfold bind.
  destruct (m s) as [[a | | e] s1]; simpl; [apply Hk | apply Rrefl | apply Rrefl].
Qed.

(** X13.  The OAuth redirect route never sends the authorization code it
    receives to the token endpoint.  The code is destructured from the route
    parameter [query]: when the route has no such parameter the handler
    throws a TypeError before the [try] statement, with no call made and
    nothing logged; when it has one (a string, as every route parameter is)
    the handler makes exactly one call, a plain GET to the token URL with
    the client id and secret and with [code=undefined]. *)
Theorem oauth_code_is_never_forwarded :
  forall (env : Env) (azure : Azure) (params : JsValue) (s : St),
    is_Some (own_entries params) ->
    (get_own params "query" = JUndefined ->
     oauth_redirect_handler env azure params s
     = (Throw (TypeError "Cannot destructure property 'code' of 'ctx.params.query'"), s)) /\
    (forall q,
       get_own params "query" = JStr q ->
       fetched (st_world (oauth_redirect_handler env azure params s).2)
       = (fetched (st_world s)
          ++ [plain_call (tokenUri azure ++ "?client_id=" ++ clientId azure
                          ++ "&client_secret=" ++ clientSecret azure
                          ++ "&code=undefined")])%list).
Proof.
  intros env azure params s [entries Hparams]. split.
  - intros Hq. unfold oauth_redirect_handler, as_function. rewrite Hparams, Hq. reflexivity.
  - intros q Hq. unfold oauth_redirect_handler. rewrite as_function_state, Hparams, Hq.
    cbn [own_entries]. rewrite string_has_no_code.
    change (token_request_url azure JUndefined)
      with (tokenUri azure ++ "?client_id=" ++ clientId azure
            ++ "&client_secret=" ++ clientSecret azure ++ "&code=undefined").
    set (call := plain_call _).
    rewrite <- (fetch_appends env call s).
    etransitivity.
    + apply (try_after_body same_calls);
        [exact same_calls_refl | exact same_calls_trans |
         | apply respects_ret, same_calls_refl].
      intros e. apply respects_bind; [exact same_calls_trans | |].
      * apply respects_set_status, same_calls_refl.
      * intros _. apply publish_same_calls.
    + apply (bind_after same_calls); [exact same_calls_refl |].
      intros response. destruct (ok response).
      * destruct (r_json response).
        -- apply respects_set_status, same_calls_refl.
        -- apply respects_throw, same_calls_refl.
      * apply respects_bind; [exact same_calls_trans | |].
        -- apply respects_set_status, same_calls_refl.
        -- intros _. apply respects_set_body, same_calls_refl.
Qed.

Lemma oauth_code_witness :
  fetched (st_world (oauth_redirect_handler open_env azure_sample
                       (JObj [("query", JStr "code=M0ab92efe")])
                       (arriving "/oauth/azure/code=M0ab92efe" (JObj []) ∅)).2)
  = [plain_call
       "https://login.example/token?client_id=gateway&client_secret=s3cret&code=undefined"].
Proof.
  apply (proj2 (oauth_code_is_never_forwarded open_env azure_sample
                  (JObj [("query", JStr "code=M0ab92efe")])
                  (arriving "/oauth/azure/code=M0ab92efe" (JObj []) ∅)
                  (ex_intro _ _ eq_refl))
           "code=M0ab92efe").
  reflexivity.
Defined.

(** The [try] block of the redirect route, once the call has settled. *)
Lemma oauth_try_block env (call : FetchCall) s :
  fc_signal call = None ->
  bind (fetch env call)
       (fun response =>
          if ok response then
            match r_json response with
            | Some data => set_status 200
            | None => throw (FetchError "invalid json response body")
            end
          else bind (set_status (r_status response)) (fun _ => set_body (JStr ""))) s
  = match (upstream env call).2 with
    | Resolves response =>
        if ok response then
          match r_json response with
          | Some data => set_status 200 (waited env call s)
          | None => (Throw (FetchError "invalid json response body"), waited env call s)
          end
        else bind (set_status (r_status response)) (fun _ => set_body (JStr ""))
               (waited env call s)
    | Rejects e => (Throw e, waited env call s)
    end.
Proof.
  intros Hsig. unfold bind at 1. rewrite (fetch_unsignalled _ _ _ Hsig).
  destruct (upstream env call).2 as [response | e]; simpl; [| reflexivity].
  destruct (ok response); [| reflexivity].
  destruct (r_json response); reflexivity.
Qed.

Lemma catch_block env e s :
  bind (set_status 500) (fun _ => publish env e) s = (catch_completion env e, logged e s).
Proof.
  unfold bind, set_status, modify_ctx, publish, modify_world, catch_completion. simpl.
  destruct (publish_throws env e); reflexivity.
Qed.

(** X14.  The OAuth redirect route never hands the token endpoint's answer
    to the client: whatever the parameters, the upstream and the logger do,
    the body after the handler is the body before it or the empty string;
    the request state is untouched. *)
Theorem oauth_answer_never_reaches_client :
  forall (env : Env) (azure : Azure) (params : JsValue) (s : St),
    let r := oauth_redirect_handler env azure params s in
    (ctx_body (st_ctx r.2) = ctx_body (st_ctx s) \/
     ctx_body (st_ctx r.2) = Some (JStr "")) /\
    ctx_state (st_ctx r.2) = ctx_state (st_ctx s).
Proof.
  intros env azure params s. cbv zeta. unfold oauth_redirect_handler.
  rewrite as_function_state.
  destruct (own_entries params); [| split; [left |]; reflexivity].
  destruct (own_entries (get_own params "query")); [| split; [left |]; reflexivity].
  unfold try_catch_finally. rewrite oauth_try_block by reflexivity.
  destruct (upstream env _).2 as [response | e].
  - destruct (ok response).
    + destruct (r_json response).
      * split; [left |]; reflexivity.
      * rewrite catch_block. unfold ret.
        destruct (catch_completion env _); split; [left | | left | | left |]; reflexivity.
    + simpl. split; [right |]; reflexivity.
  - rewrite catch_block. unfold ret.
    destruct (catch_completion env e); split; [left | | left | | left |]; reflexivity.
Qed.


